(** * A shallow embedding of [src/tools/csv.js]

    The file embeds the two functions of the module, [parseCSV] and
    [splitCSVLines], and proves the properties its specification states
    about them.

    A JavaScript string is a sequence of UTF-16 code units; it is modelled
    as a [list N], one number per code unit.  The object built for a data
    row is modelled as a finite map from property names to values.  The
    main loop of [parseCSV] is a function of the state and of the input
    from the index [i] on; it is bounded by a number of iterations, and
    shown to end within one iteration per character.  The call of
    [Math.max] spreads one argument for every row, and an engine accepts
    only so many arguments in one call: [parseCSV] takes the engine, and
    either returns records or throws a [RangeError].

    The first part embeds the program, the second part defines the notions
    the specification uses (logical lines, comment and blank lines, the
    text of a line), and the third part holds the proofs. *)

From Stdlib Require Import NArith List Bool Lia String Ascii Decimal DecimalNat.
From stdpp Require Import gmap list.
Import ListNotations.

Local Open Scope N_scope.
Local Open Scope nat_scope.
Local Open Scope list_scope.

(** * The program *)

(** ** Strings *)

Abbreviation jsstring := (list N).

(** Code units the parser names. *)
Definition NUL : N := 0%N.
Definition LF : N := 10%N.
Definition CR : N := 13%N.
Definition DQ : N := 34%N.
Definition BOM : N := 65279%N.

(** A literal of the source, as code units. *)
Definition str (s : string) : jsstring :=
  map N_of_ascii (list_ascii_of_string s).

(** [c === d] on code units, and on strings. *)
Definition ceq (c d : N) : bool := N.eqb c d.

Fixpoint seq_eq (s t : jsstring) : bool :=
  match s, t with
  | [], [] => true
  | c :: s', d :: t' => ceq c d && seq_eq s' t'
  | _, _ => false
  end.

(** The white space and line terminators [String.prototype.trim] removes. *)
Definition isWhiteSpace (c : N) : bool :=
  ((9 <=? c) && (c <=? 13))%N
  || (c =? 32)%N || (c =? 160)%N || (c =? 5760)%N
  || ((8192 <=? c) && (c <=? 8202))%N
  || (c =? 8232)%N || (c =? 8233)%N || (c =? 8239)%N
  || (c =? 8287)%N || (c =? 12288)%N || (c =? 65279)%N.

Fixpoint trimStart (s : jsstring) : jsstring :=
  match s with
  | [] => []
  | c :: t => if isWhiteSpace c then trimStart t else s
  end.

Definition trimEnd (s : jsstring) : jsstring := rev (trimStart (rev s)).

(** [s.trim()] *)
Definition trim (s : jsstring) : jsstring := trimEnd (trimStart s).

(** [s.startsWith(p)] *)
Fixpoint startsWith (s p : jsstring) {struct p} : bool :=
  match p, s with
  | [], _ => true
  | d :: p', c :: s' => ceq c d && startsWith s' p'
  | _ :: _, [] => false
  end.

(** [s.endsWith(p)] *)
Definition endsWith (s p : jsstring) : bool := startsWith (rev s) (rev p).

(** [s.slice(1, -1)] *)
Definition slice_1_m1 (s : jsstring) : jsstring := removelast (tail s).

(** The global replacement of two double quotes by one, on a string: the
    pairs are matched from the left and do not overlap. *)
Fixpoint unescapeQuotes (s : jsstring) : jsstring :=
  match s with
  | a :: t =>
      match t with
      | b :: u =>
          if ceq a DQ && ceq b DQ then DQ :: unescapeQuotes u
          else a :: unescapeQuotes t
      | [] => s
      end
  | [] => []
  end.

(** [s.replace(/\r\n/g, '\n')] *)
Fixpoint replaceCRLF (s : jsstring) : jsstring :=
  match s with
  | a :: t =>
      match t with
      | b :: u =>
          if ceq a CR && ceq b LF then LF :: replaceCRLF u
          else a :: replaceCRLF t
      | [] => s
      end
  | [] => []
  end.

(** [s.replace(/\r/g, '\n')] *)
Definition replaceCR (s : jsstring) : jsstring :=
  map (fun c => if ceq c CR then LF else c) s.

(** ** Options *)

(** The [options] argument; [None] is a property that is not set. *)
Record options := mkOptions {
  opt_delimiter : option jsstring;
  opt_commentChar : option jsstring;
  opt_hasHeader : option bool;
  opt_trim : option bool
}.

Definition noOptions : options := mkOptions None None None None.

(** [v || d] for a string-valued property: unset and empty are falsy. *)
Definition orDefault (v : option jsstring) (d : jsstring) : jsstring :=
  match v with
  | Some (c :: s) => c :: s
  | _ => d
  end.

(** [v !== false] *)
Definition notFalse (v : option bool) : bool :=
  match v with
  | Some false => false
  | _ => true
  end.

Definition delimiter (o : options) : jsstring := orDefault (opt_delimiter o) (str ",").
Definition commentChar (o : options) : jsstring := orDefault (opt_commentChar o) (str "#").
Definition hasHeader (o : options) : bool := notFalse (opt_hasHeader o).
Definition trimEnabled (o : options) : bool := notFalse (opt_trim o).

(** ** The state machine of [parseCSV] *)

(** The mutable locals of [parseCSV].  The index [i] is kept as the part of
    [data] from [i] on, passed next to the state; [prevChar] and
    [curLineNum] are never read and are left out. *)
Record state := mkState {
  rows : list (list jsstring);
  row : list jsstring;
  field : jsstring;
  inQuotes : bool;
  lineStart : bool
}.

Definition initState : state := mkState [] [] [] false true.

(** The value [pushField] appends to the row. *)
Definition finalizeField (o : options) (q : bool) (f : jsstring) : jsstring :=
  let f1 := if negb q && trimEnabled o then trim f else f in
  if (2 <=? length f1) && startsWith f1 [DQ] && endsWith f1 [DQ]
  then unescapeQuotes (slice_1_m1 f1)
  else f1.

Definition pushField (o : options) (st : state) : state :=
  mkState (rows st) (row st ++ [finalizeField o (inQuotes st) (field st)]) []
          (inQuotes st) (lineStart st).

(** The first test of [pushRow]: one field, empty or blank. *)
Definition blankRow (r : list jsstring) : bool :=
  match r with
  | [f] => seq_eq f [] || seq_eq (trim f) []
  | _ => false
  end.

(** The second test of [pushRow]: the first field, trimmed, starts with the
    comment character. *)
Definition commentRow (o : options) (r : list jsstring) : bool :=
  match r with
  | f :: _ => startsWith (trim f) (commentChar o)
  | [] => false
  end.

Definition pushRow (o : options) (st : state) : state :=
  if blankRow (row st) then
    mkState (rows st) [] (field st) (inQuotes st) (lineStart st)
  else if commentRow o (row st) then
    mkState (rows st) [] (field st) (inQuotes st) (lineStart st)
  else
    mkState (rows st ++ [row st]) [] (field st) (inQuotes st) (lineStart st).

Definition setLineStart (b : bool) (st : state) : state :=
  mkState (rows st) (row st) (field st) (inQuotes st) b.

Definition setInQuotes (b : bool) (st : state) : state :=
  mkState (rows st) (row st) (field st) b (lineStart st).

(** [field += c] *)
Definition addChar (c : N) (st : state) : state :=
  mkState (rows st) (row st) (field st ++ [c]) (inQuotes st) (lineStart st).

(** [while (i < data.length && data[i] !== '\n') i++]: what is left of the
    input, and the number of times [data[i]] was read. *)
Fixpoint skipToNewline (s : jsstring) : jsstring * nat :=
  match s with
  | [] => ([], 0)
  | c :: t =>
      if ceq c LF then (s, 1)
      else let '(r, k) := skipToNewline t in (r, S k)
  end.

(** One iteration of the main loop, at [c = data[i]] with [t] the input
    after it.  The result is the new state, the input from the new [i] on,
    and the number of reads of [data] the iteration made. *)
Definition body (o : options) (st : state) (c : N) (t : jsstring)
  : state * jsstring * nat :=
  if lineStart st && seq_eq [c] (commentChar o) then
    let '(r, k) := skipToNewline (c :: t) in
    (setLineStart true st, tail r, S k)
  else if negb (inQuotes st) && seq_eq [c] (delimiter o) then
    (setLineStart false (pushField o st), t, 1)
  else if negb (inQuotes st) && ceq c LF then
    (setLineStart true (pushRow o (pushField o st)), t, 1)
  else if negb (inQuotes st) && ceq c NUL then
    (setLineStart true (pushRow o (pushField o st)), t, 1)
  else if ceq c DQ then
    if negb (inQuotes st) then
      if seq_eq (field st) [] then
        (setLineStart false (addChar c (setInQuotes true st)), t, 1)
      else
        (setLineStart false (addChar c st), t, 1)
    else
      match t with
      | c2 :: t2 =>
          if ceq c2 DQ then (setLineStart false (addChar DQ st), t2, 2)
          else (setLineStart false (addChar c (setInQuotes false st)), t, 2)
      | [] => (setLineStart false (addChar c (setInQuotes false st)), t, 2)
      end
  else if ceq c LF && inQuotes st then
    (addChar LF st, t, 1)
  else
    (setLineStart false (addChar c st), t, 1).

(** [while (i < data.length) { ... }], bounded by [fuel] iterations;
    [None] when the bound is reached before the end of the input. *)
Fixpoint loop (o : options) (fuel : nat) (st : state) (rest : jsstring)
  : option state :=
  match rest with
  | [] => Some st
  | c :: t =>
      match fuel with
      | O => None
      | S fuel' =>
          let '(st', rest', _) := body o st c t in
          loop o fuel' st' rest'
      end
  end.

(** The reads of [data] the same loop makes. *)
Fixpoint loopReads (o : options) (fuel : nat) (st : state) (rest : jsstring)
  : option nat :=
  match rest with
  | [] => Some 0
  | c :: t =>
      match fuel with
      | O => None
      | S fuel' =>
          let '(st', rest', k) := body o st c t in
          option_map (Nat.add k) (loopReads o fuel' st' rest')
      end
  end.

(** Removal of the byte order mark. *)
Definition stripBOM (data : jsstring) : jsstring :=
  match data with
  | c :: t => if ceq c BOM then t else data
  | [] => []
  end.

(** Normalisation of the line endings. *)
Definition normalize (data : jsstring) : jsstring :=
  replaceCR (replaceCRLF data).

(** [// Handle last field/row] *)
Definition finish (o : options) (st : state) : state :=
  if (0 <? length (field st)) || (0 <? length (row st))
  then pushRow o (pushField o st)
  else st.

(** [// Remove empty trailing rows], on the reversed list of rows. *)
Fixpoint popEmptyRows (rs : list (list jsstring)) : list (list jsstring) :=
  match rs with
  | [f] :: t => if seq_eq f [] then popEmptyRows t else rs
  | _ => rs
  end.

Definition removeTrailingEmpty (rs : list (list jsstring)) : list (list jsstring) :=
  rev (popEmptyRows (rev rs)).

(** The input the state machine runs on. *)
Definition prepare (data : jsstring) : jsstring := normalize (stripBOM data).

(** Lines 22 to 164 of [parseCSV]: the rows, before the header is applied.
    The loop is given one iteration per character of the input. *)
Definition tokenize (o : options) (data : jsstring) : option (list (list jsstring)) :=
  let d := prepare data in
  match loop o (length d) initState d with
  | Some st => Some (removeTrailingEmpty (rows (finish o st)))
  | None => None
  end.

(** The reads of [data] made by the state machine on an input. *)
Definition inspections (o : options) (data : jsstring) : option nat :=
  let d := prepare data in loopReads o (length d) initState d.

(** ** The records of [parseCSV] *)

(** [String(n)] for a natural number. *)
Fixpoint uintDigits (u : Decimal.uint) : jsstring :=
  match u with
  | Decimal.Nil => []
  | Decimal.D0 u' => 48%N :: uintDigits u'
  | Decimal.D1 u' => 49%N :: uintDigits u'
  | Decimal.D2 u' => 50%N :: uintDigits u'
  | Decimal.D3 u' => 51%N :: uintDigits u'
  | Decimal.D4 u' => 52%N :: uintDigits u'
  | Decimal.D5 u' => 53%N :: uintDigits u'
  | Decimal.D6 u' => 54%N :: uintDigits u'
  | Decimal.D7 u' => 55%N :: uintDigits u'
  | Decimal.D8 u' => 56%N :: uintDigits u'
  | Decimal.D9 u' => 57%N :: uintDigits u'
  end.

Definition numberToString (n : nat) : jsstring := uintDigits (Nat.to_uint n).

(** [obj[k] = v] on an object made by [{}].  The property [__proto__] is
    inherited with a setter that ignores a string, so that assignment
    leaves the object as it is. *)
Definition setProp (obj : gmap jsstring jsstring) (k v : jsstring)
  : gmap jsstring jsstring :=
  if seq_eq k (str "__proto__") then obj else <[k := v]> obj.

(** [for (let j = ...; j < headers.length; j++) obj[headers[j]] = ...],
    from index [j] on, [hs] being the headers from [j] on. *)
Fixpoint fillObject (hs : list jsstring) (r : list jsstring) (j : nat)
  (obj : gmap jsstring jsstring) : gmap jsstring jsstring :=
  match hs with
  | [] => obj
  | h :: hs' => fillObject hs' r (S j) (setProp obj h (default [] (r !! j)))
  end.

(** The object built for the row [r]. *)
Definition buildObject (headers : list jsstring) (r : list jsstring)
  : gmap jsstring jsstring :=
  fillObject headers r 0 ∅.

(** The code runs on a JavaScript engine, and an engine accepts only so
    many arguments in one call: [maxArguments], at least one.  A call that
    spreads an array of more elements throws a [RangeError]. *)
Record engine := mkEngine { maxArguments : positive }.

(** What an expression does: it gives a value, or it throws. *)
Inductive completion (A : Type) : Type :=
| Returns (a : A)
| RangeError.

Arguments Returns {A} a.
Arguments RangeError {A}.

(** The engine accepts a call with [n] arguments. *)
Definition accepts (e : engine) (n : nat) : bool :=
  (N.of_nat n <=? N.pos (maxArguments e))%N.

(** [Math.max] of at least one length. *)
Definition Math_max (ns : list nat) : nat := foldr Nat.max 0 ns.

(** [Math.max(...rows.map(r => r.length))]: one argument for every row. *)
Definition maxLen (e : engine) (rs : list (list jsstring)) : completion nat :=
  if accepts e (length rs)
  then Returns (Math_max (map (@length jsstring) rs))
  else RangeError.

(** [// Generate generic headers], for [maxLen] equal to [n]. *)
Definition genericHeaders (n : nat) : list jsstring :=
  map (fun j => str "field" ++ numberToString (j + 1)) (seq 0 n).

(** [headers] after lines 169 to 179, where [rows] has at least one row. *)
Definition headers (e : engine) (o : options) (rs : list (list jsstring))
  : completion (list jsstring) :=
  if hasHeader o then Returns (default [] (head rs))
  else
    match maxLen e rs with
    | Returns n => Returns (genericHeaders n)
    | RangeError => RangeError
    end.

(** [startIdx] after lines 169 to 179. *)
Definition startIdx (o : options) : nat := if hasHeader o then 1 else 0.

(** Lines 166 to 192 of [parseCSV]. *)
Definition buildRecords (e : engine) (o : options) (rs : list (list jsstring))
  : completion (list (gmap jsstring jsstring)) :=
  match rs with
  | [] => Returns []
  | _ :: _ =>
      match headers e o rs with
      | Returns hs => Returns (map (buildObject hs) (drop (startIdx o) rs))
      | RangeError => RangeError
      end
  end.

(** [parseCSV(data, options)] on the engine [e]; [None] stands for a main
    loop that has not ended after one iteration per character. *)
Definition parseCSV (e : engine) (data : jsstring) (o : options)
  : option (completion (list (gmap jsstring jsstring))) :=
  option_map (buildRecords e o) (tokenize o data).

(** ** [splitCSVLines] *)

(** [if (cur.trim() !== '') lines.push(cur)] *)
Definition pushLine (lines : list jsstring) (cur : jsstring) : list jsstring :=
  if seq_eq (trim cur) [] then lines else lines ++ [cur].

(** The [for] loop of [splitCSVLines] from index [i] on, [data] being the
    input from [i] on, followed by the last [push]. *)
Fixpoint splitLoop (data cur : jsstring) (inQ : bool) (lines : list jsstring)
  : list jsstring :=
  match data with
  | [] => pushLine lines cur
  | c :: t =>
      if ceq c DQ then
        match t with
        | c2 :: t2 =>
            if inQ && ceq c2 DQ then splitLoop t2 (cur ++ [DQ]) inQ lines
            else splitLoop t (cur ++ [DQ]) (negb inQ) lines
        | [] => splitLoop t (cur ++ [DQ]) (negb inQ) lines
        end
      else if (ceq c LF || ceq c CR) && negb inQ then
        match t with
        | c2 :: t2 =>
            if ceq c CR && ceq c2 LF then splitLoop t2 [] inQ (pushLine lines cur)
            else splitLoop t [] inQ (pushLine lines cur)
        | [] => splitLoop t [] inQ (pushLine lines cur)
        end
      else splitLoop t (cur ++ [c]) inQ lines
  end.

Definition splitCSVLines (data : jsstring) : list jsstring :=
  splitLoop data [] false [].

(** A literal in which an apostrophe stands for the double quote. *)
Definition lit (s : string) : jsstring :=
  map (fun c => if ceq c 39%N then DQ else c) (str s).

(** * Notions of the specification *)

(** ** Values of one field *)

(** The test made on the first character of a line. *)
Definition commentStart (o : options) (d : jsstring) : bool :=
  match d with
  | c :: _ => seq_eq [c] (commentChar o)
  | [] => false
  end.

(** A character that is no delimiter, line end, double quote or NUL. *)
Definition plainChar (o : options) (c : N) : bool :=
  negb (seq_eq [c] (delimiter o)) && negb (ceq c LF) && negb (ceq c CR)
  && negb (ceq c DQ) && negb (ceq c NUL).

(** The statement of the round trip, for one value. *)
Definition roundTrip (o : options) (v : jsstring) : Prop :=
  tokenize o v = Some [[if trimEnabled o then trim v else v]].

(** The values of the round trip: no delimiter, no line end, no double
    quote. *)
Definition noSeparator (o : options) (v : jsstring) : bool :=
  forallb (fun c => negb (seq_eq [c] (delimiter o)) && negb (ceq c LF)
                    && negb (ceq c CR) && negb (ceq c DQ)) v.

(** ** Line endings *)

(** A text with every newline replaced by a carriage return and a
    newline, and with every newline replaced by a carriage return. *)
Definition toCRLF (s : jsstring) : jsstring :=
  flat_map (fun c => if ceq c LF then [CR; LF] else [c]) s.

Definition toCR (s : jsstring) : jsstring :=
  map (fun c => if ceq c LF then CR else c) s.

(** ** Header names *)

(** The claim on the header names, for one header list and one row: the
    name at a position has the row's value at the position, or the empty
    string. *)
Definition headersMapByPosition (hs r : list jsstring) : Prop :=
  forall (j : nat) (h : jsstring),
    hs !! j = Some h -> buildObject hs r !! h = Some (default [] (r !! j)).

(** ** Invariants of the state machine *)

(** What holds of the state at every iteration: an open quoted field has
    its opening quote first in the buffer, no row kept is blank, and at a
    line start the row and the buffer are empty and no quote is open. *)
Record invariant (st : state) : Prop := mkInvariant {
  inv_quote : inQuotes st = true -> exists b, field st = DQ :: b;
  inv_rows : Forall (fun r => blankRow r = false) (rows st);
  inv_start : lineStart st = true ->
              row st = [] /\ field st = [] /\ inQuotes st = false
}.

(** ** A quoted field left open at the end of the input *)

Definition noHeader : options := mkOptions None None (Some false) None.

(** The claim on an input that ends in an open quoted field: the buffer is
    the last field of the last row, as it is. *)
Definition openFieldKeptRaw (o : options) (data : jsstring) : Prop :=
  forall st : state,
    loop o (length (prepare data)) initState (prepare data) = Some st ->
    inQuotes st = true ->
    tokenize o data = Some (rows st ++ [row st ++ [field st]]).

(** ** Logical lines *)

(** The logical lines of a normalised text are its lines as the state
    machine sees them: a line ends at a newline that is not inside a
    quoted field, a quoted field being opened by a double quote at the
    start of a field and closed by a double quote that is not doubled; a
    line that starts with the comment character ends at the next newline.
    The definitions of this section follow the transition table of the
    specification; they are compared with the state machine below. *)
Definition consLine (c : N) (p : jsstring * option jsstring)
  : jsstring * option jsstring :=
  (c :: fst p, snd p).

(** The line at the start of [d], read with a quoted field open or not
    ([q]) and the field empty so far or not ([fe]), and the text after its
    newline, if it has one. *)
Fixpoint scanLine (o : options) (q fe : bool) (d : jsstring)
  : jsstring * option jsstring :=
  match d with
  | [] => ([], None)
  | c :: t =>
      if negb q && seq_eq [c] (delimiter o) then
        consLine c (scanLine o false true t)
      else if negb q && ceq c LF then ([], Some t)
      else if ceq c DQ then
        if negb q then
          if fe then consLine c (scanLine o true false t)
          else consLine c (scanLine o false false t)
        else
          match t with
          | c2 :: t2 =>
              if ceq c2 DQ then consLine c (consLine c2 (scanLine o true false t2))
              else consLine c (scanLine o false false t)
          | [] => ([c], None)
          end
      else consLine c (scanLine o q false t)
  end.

(** The text up to the next newline, and the text after it. *)
Fixpoint breakLine (d : jsstring) : jsstring * option jsstring :=
  match d with
  | [] => ([], None)
  | c :: t => if ceq c LF then ([], Some t) else consLine c (breakLine t)
  end.

(** The first logical line of a text. *)
Definition firstLine (o : options) (d : jsstring) : jsstring * option jsstring :=
  if commentStart o d then breakLine d else scanLine o false true d.

Fixpoint linesFrom (o : options) (fuel : nat) (d : jsstring) : list jsstring :=
  match d, fuel with
  | [], _ => []
  | _, O => []
  | _, S fuel' =>
      match firstLine o d with
      | (l, None) => [l]
      | (l, Some r) => l :: linesFrom o fuel' r
      end
  end.

(** The logical lines of a normalised text. *)
Definition logicalLines (o : options) (d : jsstring) : list jsstring :=
  linesFrom o (length d) d.

(** The fields of a line: the row of the state machine after the line,
    read as an input of its own at a place that is no line start, and
    after the last field is pushed. *)
Definition fieldsOf (o : options) (l : jsstring) : list jsstring :=
  match loop o (length l) (mkState [] [] [] false false) l with
  | Some st => row (pushField o st)
  | None => []
  end.

Inductive lineKind := CommentLine | BlankLine | DataLine.

(** A comment line starts with the comment character, or has a first
    field that does once trimmed; a blank line is one field, empty or
    blank.  Each line is of one kind, found by the tests in the order in
    which the parser makes them. *)
Definition classify (o : options) (l : jsstring) : lineKind :=
  if commentStart o l then CommentLine
  else if blankRow (fieldsOf o l) then BlankLine
  else if commentRow o (fieldsOf o l) then CommentLine
  else DataLine.

Definition isKind (k : lineKind) (o : options) (l : jsstring) : bool :=
  match classify o l, k with
  | CommentLine, CommentLine | BlankLine, BlankLine | DataLine, DataLine => true
  | _, _ => false
  end.

Definition countKind (k : lineKind) (o : options) (ls : list jsstring) : nat :=
  length (List.filter (isKind k o) ls).

(** The rows of the data lines. *)
Definition dataRows (o : options) (ls : list jsstring) : list (list jsstring) :=
  map (fieldsOf o) (List.filter (isKind DataLine o) ls).

(** The claim on the number of rows, for one input. *)
Definition rowCountClaim (o : options) (data : jsstring) : Prop :=
  exists rs : list (list jsstring),
    tokenize o data = Some rs /\
    length rs = length (logicalLines o (prepare data))
                - countKind CommentLine o (logicalLines o (prepare data))
                - countKind BlankLine o (logicalLines o (prepare data)).

(** ** States of the run over a line *)

(** The rows kept so far are only added to. *)
Definition addRows (rs : list (list jsstring)) (st : state) : state :=
  mkState (rs ++ rows st) (row st) (field st) (inQuotes st) (lineStart st).

(** The row or the buffer holds something of the current line. *)
Definition nonEmpty (st : state) : Prop := row st <> [] \/ field st <> [].

(** The run of the state machine over the first logical line [l] of the
    text [d], from the state [st]; [r] is the text after the line. *)
Definition lineRun (o : options) (st : state) (d l : jsstring)
  (r : option jsstring) : Prop :=
  exists st_l : state,
    loop o (length l) st l = Some st_l /\
    rows st_l = rows st /\
    (l <> [] \/ nonEmpty st -> nonEmpty st_l) /\
    match r with
    | Some rest =>
        d = l ++ LF :: rest /\
        inQuotes st_l = false /\
        loop o (length d) st d =
        loop o (length rest) (setLineStart true (pushRow o (pushField o st_l))) rest
    | None => d = l
    end.

(** The state at the start of a line, with the rows [rs] kept so far. *)
Definition startState (rs : list (list jsstring)) : state :=
  mkState rs [] [] false true.

(** ** The lines of [splitCSVLines] *)

Definition consText (c : N) (p : option (jsstring * bool))
  : option (jsstring * bool) :=
  match p with
  | Some (s, q) => Some (c :: s, q)
  | None => None
  end.

(** The text of a piece of input that holds no line end outside quotes,
    read from the quote state [inQ]: the piece with every escaped quote as
    one double quote, and the quote state after it; [None] when the piece
    holds a newline or a carriage return outside quotes.  A double quote
    opens or closes a quoted region, but for a double quote that follows
    one inside a quoted region, which is an escaped quote. *)
Fixpoint lineText (inQ : bool) (l : jsstring) : option (jsstring * bool) :=
  match l with
  | [] => Some ([], inQ)
  | c :: t =>
      if ceq c DQ then
        match t with
        | c2 :: t2 =>
            if inQ && ceq c2 DQ then consText DQ (lineText inQ t2)
            else consText DQ (lineText (negb inQ) t)
        | [] => Some ([DQ], negb inQ)
        end
      else if (ceq c LF || ceq c CR) && negb inQ then None
      else consText c (lineText inQ t)
  end.

(** The lines a text gives: itself, unless it is blank. *)
Definition keepLine (txt : jsstring) : list jsstring :=
  if seq_eq (trim txt) [] then [] else [txt].

(** ** Inputs of many rows *)

(** The line [a], [n] times, each followed by a newline. *)
Fixpoint manyRows (n : nat) : jsstring :=
  match n with
  | O => []
  | S n' => str "a" ++ LF :: manyRows n'
  end.

(** An engine that accepts 65535 arguments in one call. *)
Definition engine64k : engine := mkEngine 65535%positive.

(** ** Notions of the further properties *)

(** A row that [pushRow] keeps. *)
Definition keptRow (o : options) (r : list jsstring) : Prop :=
  r <> [] /\ blankRow r = false /\ commentRow o r = false.

(** The name generated for the field of index [j]. *)
Definition fieldName (j : nat) : jsstring := str "field" ++ numberToString (j + 1).

(** The header names of the rows [rs]: the fields of the first row, or the
    generated names, one for every position of the longest row. *)
Definition headerNames (o : options) (rs : list (list jsstring)) : list jsstring :=
  if hasHeader o then default [] (head rs)
  else map fieldName (seq 0 (Math_max (map (@length jsstring) rs))).

(** The property names of the record [m] are the names [hs], but for
    [__proto__]. *)
Definition hasKeys (hs : list jsstring) (m : gmap jsstring jsstring) : Prop :=
  forall h : jsstring, h ∈ dom m <-> h ∈ hs /\ h <> str "__proto__".

(** ** Well-formed tables *)

(** A field as it is written in a well-formed input: as it is, or between
    double quotes with every double quote of the value doubled. *)
Inductive cell :=
| Plain (v : jsstring)
| Quoted (x : jsstring).

Fixpoint escapeQuotes (x : jsstring) : jsstring :=
  match x with
  | [] => []
  | c :: t => if ceq c DQ then DQ :: DQ :: escapeQuotes t else c :: escapeQuotes t
  end.

(** The text of a field. *)
Definition cellText (c : cell) : jsstring :=
  match c with
  | Plain v => v
  | Quoted x => DQ :: escapeQuotes x ++ [DQ]
  end.

(** The value the text of a field stands for. *)
Definition cellValue (o : options) (c : cell) : jsstring :=
  match c with
  | Plain v => if trimEnabled o then trim v else v
  | Quoted x => x
  end.

(** No two double quotes in a row. *)
Fixpoint noQuotePair (x : jsstring) : bool :=
  match x with
  | a :: t =>
      match t with
      | b :: _ => negb (ceq a DQ && ceq b DQ) && noQuotePair t
      | [] => true
      end
  | [] => true
  end.

(** The fields the round trip holds for: written as it is, a field has no
    delimiter, line end, double quote or NUL; between quotes, it has no
    carriage return and no two double quotes in a row. *)
Definition cellOk (o : options) (c : cell) : bool :=
  match c with
  | Plain v => forallb (plainChar o) v
  | Quoted x => forallb (fun a => negb (ceq a CR)) x && noQuotePair x
  end.

(** The text of a row: the texts of its fields with the delimiter between
    them. *)
Fixpoint rowText (dl : N) (cs : list cell) : jsstring :=
  match cs with
  | [] => []
  | c :: cs' =>
      match cs' with
      | [] => cellText c
      | _ :: _ => cellText c ++ dl :: rowText dl cs'
      end
  end.

(** The text of a table: every row followed by a newline. *)
Fixpoint tableText (dl : N) (t : list (list cell)) : jsstring :=
  match t with
  | [] => []
  | cs :: t' => rowText dl cs ++ LF :: tableText dl t'
  end.

(** The rows [pushRow] keeps, as a test. *)
Definition keepsRow (o : options) (r : list jsstring) : bool :=
  negb (blankRow r) && negb (commentRow o r).

(** The buffer of the state machine after the text of a field. *)
Definition cellBuffer (c : cell) : jsstring :=
  match c with
  | Plain v => v
  | Quoted x => DQ :: x ++ [DQ]
  end.

(** A row of a well-formed table: at least one field, every field well
    formed, and no comment character first in its text. *)
Definition rowOk (o : options) (dl : N) (cs : list cell) : Prop :=
  cs <> [] /\ forallb (cellOk o) cs = true /\
  commentStart o (rowText dl cs ++ [LF]) = false.

(** The state after the text of a field, read from the start of a field. *)
Definition afterCell (st : state) (c : cell) : state :=
  mkState (rows st) (row st) (cellBuffer c) false
          (match cellText c with [] => lineStart st | _ => false end).

(** The line of a row: the buffers of its fields with the delimiter
    between them; a quoted field is there with its quotes and with its
    value as it is. *)
Fixpoint rowLine (dl : N) (cs : list cell) : jsstring :=
  match cs with
  | [] => []
  | c :: cs' =>
      match cs' with
      | [] => cellBuffer c
      | _ :: _ => cellBuffer c ++ dl :: rowLine dl cs'
      end
  end.

(** The fields [splitCSVLines] keeps in one line: written as it is, a
    field has no double quote, newline or carriage return; between double
    quotes it has any value. *)
Definition lineCellOk (c : cell) : bool :=
  match c with
  | Plain v =>
      forallb (fun a => negb (ceq a DQ) && negb (ceq a LF) && negb (ceq a CR)) v
  | Quoted _ => true
  end.

(** A line that is not blank. *)
Definition nonBlank (l : jsstring) : bool := negb (seq_eq (trim l) []).

(** The state between two rows when no row was ever split: no field of a
    row is waiting, and every row has one field. *)
Definition unsplit (st : state) : Prop :=
  row st = [] /\ Forall (fun r : list jsstring => length r = 1) (rows st).

(** * Properties *)

(** Case analysis on every test of the goal. *)
Ltac destruct_tests :=
  repeat match goal with
  | |- context [if ?b then _ else _] => destruct b
  | |- context [match ?l with [] => _ | _ :: _ => _ end] => destruct l
  end.

(** ** Termination and cost of the main loop *)

Lemma skipToNewline_length (s r : jsstring) (k : nat) :
  skipToNewline s = (r, k) -> k + length (tail r) = length s.
Proof.
  revert r k. induction s as [|c t IH]; intros r k H; simpl in H.
  - inversion H; reflexivity.
  - destruct (ceq c LF).
    + inversion H; subst; simpl; lia.
    + destruct (skipToNewline t) as [r' k'] eqn:E.
      inversion H; subst. specialize (IH _ _ eq_refl). simpl; lia.
Qed.

Lemma skipToNewline_reads (c : N) (t r : jsstring) (k : nat) :
  skipToNewline (c :: t) = (r, k) -> 1 <= k.
Proof.
  simpl. destruct (ceq c LF).
  - intros H; inversion H; lia.
  - destruct (skipToNewline t); intros H; inversion H; lia.
Qed.

(** Every iteration moves [i] forward, and reads [data] at most twice for
    each character it passes. *)
Lemma body_progress (o : options) (st st' : state) (c : N) (t r : jsstring) (k : nat) :
  body o st c t = (st', r, k) ->
  length r <= length t /\ k + 2 * length r <= 2 * S (length t).
Proof.
  unfold body. destruct (skipToNewline (c :: t)) as [r0 k0] eqn:E.
  destruct_tests; intros H; inversion H; subst; clear H; simpl; try lia.
  all: match goal with
       | E : skipToNewline _ = _ |- _ =>
           pose proof (skipToNewline_length _ _ _ E) as Hl;
           pose proof (skipToNewline_reads _ _ _ _ E) as Hr;
           simpl in Hl; lia
       end.
Qed.

Lemma loop_terminates (o : options) (fuel : nat) :
  forall (st : state) (rest : jsstring),
    length rest <= fuel ->
    exists st' n,
      loop o fuel st rest = Some st' /\
      loopReads o fuel st rest = Some n /\
      n <= 2 * length rest.
Proof.
  induction fuel as [|fuel IH]; intros st rest Hlen.
  - destruct rest; simpl in Hlen; [|lia].
    exists st, 0; simpl; auto.
  - destruct rest as [|c t].
    + exists st, 0; simpl; auto.
    + simpl. destruct (body o st c t) as [[st1 r] k] eqn:E.
      apply body_progress in E. simpl in Hlen.
      destruct (IH st1 r ltac:(lia)) as (st' & n & H1 & H2 & H3).
      exists st', (k + n). rewrite H1, H2. simpl. repeat split; auto. lia.
Qed.

(** More iterations than needed change nothing. *)
Lemma loop_fuel (o : options) (fuel : nat) :
  forall (fuel' : nat) (st : state) (rest : jsstring),
    length rest <= fuel -> length rest <= fuel' ->
    loop o fuel st rest = loop o fuel' st rest.
Proof.
  induction fuel as [|fuel IH]; intros fuel' st rest H H'.
  - destruct rest; simpl in *; [destruct fuel'; reflexivity|lia].
  - destruct rest as [|c t]; [destruct fuel'; reflexivity|].
    destruct fuel' as [|fuel']; simpl in *; [lia|].
    destruct (body o st c t) as [[st1 r] k] eqn:E.
    apply body_progress in E. apply IH; lia.
Qed.

Lemma replaceCRLF_length (s : jsstring) : length (replaceCRLF s) <= length s.
Proof.
  assert (H : forall n (s : jsstring), length s <= n -> length (replaceCRLF s) <= length s).
  { clear s. induction n as [|n IH]; intros s Hs.
    - destruct s; simpl in *; lia.
    - destruct s as [|a [|b u]]; simpl in *; try lia.
      destruct (ceq a CR && ceq b LF); simpl.
      + specialize (IH u ltac:(lia)). lia.
      + specialize (IH (b :: u) ltac:(simpl; lia)). simpl in IH. lia. }
  apply (H (length s)). lia.
Qed.

Lemma prepare_length (data : jsstring) : length (prepare data) <= length data.
Proof.
  unfold prepare, normalize, replaceCR. rewrite length_map.
  etransitivity; [apply replaceCRLF_length|].
  destruct data as [|c t]; simpl; [lia|].
  destruct (ceq c BOM); simpl; lia.
Qed.

(** ** The limit of the engine on the arguments of a call *)

Lemma accepts_one (e : engine) : accepts e 1 = true.
Proof. unfold accepts. apply N.leb_le. simpl. lia. Qed.

Lemma buildRecords_header (e : engine) (o : options) (rs : list (list jsstring)) :
  hasHeader o = true ->
  buildRecords e o rs
  = Returns (map (buildObject (default [] (head rs))) (drop 1 rs)).
Proof.
  intros H. unfold buildRecords, headers, startIdx. rewrite H.
  now destruct rs.
Qed.

Lemma buildRecords_generic (e : engine) (o : options) (rs : list (list jsstring)) :
  hasHeader o = false ->
  accepts e (length rs) = true ->
  buildRecords e o rs
  = Returns (map (buildObject
                    (genericHeaders (Math_max (map (@length jsstring) rs)))) rs).
Proof.
  intros H Ha. unfold buildRecords, headers, startIdx, maxLen. rewrite H, Ha.
  now destruct rs.
Qed.

Lemma buildRecords_RangeError (e : engine) (o : options) (rs : list (list jsstring)) :
  hasHeader o = false ->
  accepts e (length rs) = false ->
  buildRecords e o rs = RangeError.
Proof.
  intros H Ha. unfold buildRecords, headers, maxLen. rewrite H, Ha.
  destruct rs; [discriminate | reflexivity].
Qed.

(** ** Field finalization *)

Lemma startsWith_DQ (s : jsstring) :
  startsWith s [DQ] = true -> exists t, s = DQ :: t.
Proof.
  destruct s as [|c t]; simpl; [discriminate|].
  rewrite andb_true_r. unfold ceq. intros H%N.eqb_eq. subst. eauto.
Qed.

Lemma endsWith_DQ (s : jsstring) :
  endsWith s [DQ] = true -> exists t, s = t ++ [DQ].
Proof.
  unfold endsWith. simpl. intros [t Ht]%startsWith_DQ.
  exists (rev t). rewrite <- (rev_involutive s), Ht. reflexivity.
Qed.

Lemma slice_1_m1_quoted (inner : jsstring) :
  slice_1_m1 (DQ :: inner ++ [DQ]) = inner.
Proof. unfold slice_1_m1. simpl. apply removelast_last. Qed.

Lemma quoted_shape (b : jsstring) :
  2 <= length b -> startsWith b [DQ] = true -> endsWith b [DQ] = true ->
  exists inner, b = DQ :: inner ++ [DQ].
Proof.
  intros Hlen [t ->]%startsWith_DQ [u Hu]%endsWith_DQ.
  destruct u as [|c u]; simpl in Hu.
  - inversion Hu; subst. simpl in Hlen. lia.
  - inversion Hu; subst. eauto.
Qed.

(** C2: when the buffer, trimmed if the field is not open and trimming is
    on, has at least two characters and starts and ends with a double
    quote, [pushField] appends to the row the buffer without its first and
    last character and with every pair of double quotes replaced by one;
    the input made of the one quoted field [lit "'a''b'"] (an apostrophe
    standing for the double quote) gives the one field [lit "a'b"]. *)
Theorem pushField_unquotes (o : options) (st : state) (b : jsstring) :
  b = (if negb (inQuotes st) && trimEnabled o then trim (field st) else field st) ->
  2 <= length b ->
  startsWith b [DQ] = true ->
  endsWith b [DQ] = true ->
  (exists inner,
      b = [DQ] ++ inner ++ [DQ] /\
      row (pushField o st) = row st ++ [unescapeQuotes inner] /\
      field (pushField o st) = []) /\
  tokenize noOptions (lit "'a''b'") = Some [[lit "a'b"]] /\
  tokenize noHeader (lit "'a''b'") = Some [[lit "a'b"]].
Proof.
  intros Hb Hlen Hs He. split; [|split; reflexivity].
  destruct (quoted_shape b Hlen Hs He) as [inner Hinner].
  exists inner. split; [exact Hinner|]. split; [|reflexivity].
  unfold pushField, finalizeField. cbn [row]. rewrite <- Hb.
  apply Nat.leb_le in Hlen. rewrite Hlen, Hs, He. cbn [andb].
  rewrite Hinner, slice_1_m1_quoted. reflexivity.
Qed.

Lemma pushField_unquotes_witness :
  row (pushField noOptions (mkState [] [] (lit " 'x''''y' ") false false))
  = [lit "x''y"].
Proof.
  destruct (pushField_unquotes noOptions
              (mkState [] [] (lit " 'x''''y' ") false false) (lit "'x''''y'"))
    as [(inner & Hb & Hrow & _) _];
    [reflexivity | simpl; lia | reflexivity | reflexivity |].
  rewrite Hrow. simpl. f_equal.
  injection Hb as Hb. apply (f_equal (@rev N)) in Hb.
  rewrite rev_app_distr in Hb. simpl in Hb. injection Hb as Hb.
  apply (f_equal (@rev N)) in Hb. rewrite rev_involutive in Hb.
  rewrite <- Hb. reflexivity.
Defined.

(** ** Facts on [trim] and on the normalisation *)

Lemma ceq_true (c d : N) : ceq c d = true <-> c = d.
Proof. apply N.eqb_eq. Qed.

Lemma ceq_false (c d : N) : ceq c d = false <-> c <> d.
Proof. apply N.eqb_neq. Qed.

Lemma seq_eq_true (s t : jsstring) : seq_eq s t = true <-> s = t.
Proof.
  revert t. induction s as [|c s IH]; intros [|d t]; simpl; split;
    try congruence; try discriminate.
  - intros [H1 H2]%andb_true_iff. apply ceq_true in H1. apply IH in H2. congruence.
  - intros H. inversion H; subst. apply andb_true_iff. split.
    + now apply ceq_true.
    + now apply IH.
Qed.

Lemma seq_eq_nil (s : jsstring) : seq_eq s [] = true <-> s = [].
Proof. apply seq_eq_true. Qed.

Lemma seq_eq_snoc (s : jsstring) (c : N) : seq_eq (s ++ [c]) [] = false.
Proof. now destruct s. Qed.

Lemma seq_eq_nil_false (s : jsstring) : seq_eq s [] = false <-> s <> [].
Proof.
  rewrite <- seq_eq_nil. destruct (seq_eq s []); split; congruence.
Qed.

Lemma trimStart_Forall (P : N -> Prop) (s : jsstring) :
  Forall P s -> Forall P (trimStart s).
Proof.
  induction 1 as [|c t Hc Ht IH]; simpl; [constructor|].
  destruct (isWhiteSpace c); auto.
Qed.

Lemma trim_Forall (P : N -> Prop) (s : jsstring) :
  Forall P s -> Forall P (trim s).
Proof.
  intros H. unfold trim, trimEnd.
  apply Forall_rev, trimStart_Forall, Forall_rev, trimStart_Forall, H.
Qed.

Lemma trimStart_head (s : jsstring) :
  trimStart s = [] \/ exists x t, trimStart s = x :: t /\ isWhiteSpace x = false.
Proof.
  induction s as [|c t IH]; simpl; [now left|].
  destruct (isWhiteSpace c) eqn:E; [exact IH|]. right; eauto.
Qed.

Lemma trimStart_fix (x : N) (t : jsstring) :
  isWhiteSpace x = false -> trimStart (x :: t) = x :: t.
Proof. intros H. simpl. now rewrite H. Qed.

Lemma trimStart_idem (s : jsstring) : trimStart (trimStart s) = trimStart s.
Proof.
  destruct (trimStart_head s) as [-> | (x & t & -> & Hx)]; [reflexivity|].
  now apply trimStart_fix.
Qed.

Lemma trimStart_app (s t : jsstring) (x : N) :
  isWhiteSpace x = false -> trimStart (s ++ x :: t) = trimStart s ++ x :: t.
Proof.
  intros Hx. induction s as [|c s IH]; simpl.
  - now rewrite Hx.
  - destruct (isWhiteSpace c); [exact IH | reflexivity].
Qed.

(** The shape of a trimmed string: empty, or between two characters
    that are not white space. *)
Lemma trim_shape (s : jsstring) :
  trim s = [] \/
  exists x w, trim s = x :: rev w /\ isWhiteSpace x = false /\ trimStart w = w.
Proof.
  unfold trim, trimEnd.
  destruct (trimStart_head s) as [-> | (x & t & -> & Hx)]; [now left|].
  right. simpl. rewrite (trimStart_app (rev t) [] x Hx).
  exists x, (trimStart (rev t)). rewrite rev_app_distr. simpl.
  repeat split; auto using trimStart_idem.
Qed.

Lemma trim_idem (s : jsstring) : trim (trim s) = trim s.
Proof.
  destruct (trim_shape s) as [-> | (x & w & -> & Hx & Hw)]; [reflexivity|].
  unfold trim, trimEnd. rewrite (trimStart_fix x _ Hx). simpl.
  rewrite rev_involutive, (trimStart_app w [] x Hx), Hw, rev_app_distr.
  reflexivity.
Qed.

Lemma trim_stripBOM (s : jsstring) : trim (stripBOM s) = trim s.
Proof.
  destruct s as [|c t]; simpl; [reflexivity|].
  destruct (ceq c BOM) eqn:E; [|reflexivity].
  apply ceq_true in E. subst. reflexivity.
Qed.

Lemma replaceCRLF_noCR (s : jsstring) :
  Forall (fun c => c <> CR) s -> replaceCRLF s = s.
Proof.
  induction 1 as [|a t Ha Ht IH]; [reflexivity|].
  simpl. destruct t as [|b u]; [reflexivity|].
  apply ceq_false in Ha. rewrite Ha. simpl.
  simpl in IH. now rewrite IH.
Qed.

Lemma replaceCR_noCR (s : jsstring) :
  Forall (fun c => c <> CR) s -> replaceCR s = s.
Proof.
  induction 1 as [|a t Ha Ht IH]; [reflexivity|].
  simpl. apply ceq_false in Ha. rewrite Ha. f_equal. exact IH.
Qed.

Lemma normalize_noCR (s : jsstring) :
  Forall (fun c => c <> CR) s -> normalize s = s.
Proof.
  intros H. unfold normalize. rewrite (replaceCRLF_noCR s H).
  now apply replaceCR_noCR.
Qed.

Lemma stripBOM_Forall (P : N -> Prop) (s : jsstring) :
  Forall P s -> Forall P (stripBOM s).
Proof.
  destruct 1 as [|c t Hc Ht]; simpl; [constructor|].
  destruct (ceq c BOM); auto.
Qed.

(** A field without double quote is left as it is, but for the trimming. *)
Lemma finalizeField_plain (o : options) (q : bool) (f : jsstring) :
  Forall (fun c => c <> DQ) f ->
  finalizeField o q f = if negb q && trimEnabled o then trim f else f.
Proof.
  intros H. unfold finalizeField.
  set (f1 := if negb q && trimEnabled o then trim f else f).
  assert (H1 : Forall (fun c => c <> DQ) f1).
  { unfold f1. destruct (negb q && trimEnabled o); auto using trim_Forall. }
  destruct (startsWith f1 [DQ]) eqn:E.
  - apply startsWith_DQ in E as [t Ht]. rewrite Ht in H1.
    inversion H1; congruence.
  - now rewrite andb_false_r.
Qed.

(** ** One unquoted field *)

Lemma plainChar_spec (o : options) (c : N) :
  plainChar o c = true ->
  seq_eq [c] (delimiter o) = false /\ ceq c LF = false /\ ceq c CR = false /\
  ceq c DQ = false /\ ceq c NUL = false.
Proof.
  unfold plainChar. rewrite !andb_true_iff, !negb_true_iff. tauto.
Qed.

Lemma body_plain (o : options) (st : state) (c : N) (t : jsstring) :
  inQuotes st = false ->
  plainChar o c = true ->
  lineStart st && seq_eq [c] (commentChar o) = false ->
  body o st c t = (mkState (rows st) (row st) (field st ++ [c]) false false, t, 1).
Proof.
  intros Hq (Hd & Hl & _ & Hdq & Hn)%plainChar_spec Hc.
  unfold body. rewrite Hc, Hq, Hd, Hl, Hdq, Hn. simpl.
  unfold setLineStart, addChar. simpl. now rewrite Hq.
Qed.

Lemma loop_plain (o : options) (v : jsstring) :
  forall (st : state) (fuel : nat),
    length v <= fuel ->
    inQuotes st = false ->
    forallb (plainChar o) v = true ->
    lineStart st && commentStart o v = false ->
    loop o fuel st v =
      Some (mkState (rows st) (row st) (field st ++ v) false
              (match v with [] => lineStart st | _ => false end)).
Proof.
  induction v as [|c t IH]; intros st fuel Hlen Hq Hv Hc.
  - destruct st; simpl in *. subst. rewrite app_nil_r.
    destruct fuel; reflexivity.
  - simpl in Hv. apply andb_true_iff in Hv as [Hc1 Ht].
    destruct fuel as [|fuel]; simpl in Hlen; [lia|].
    simpl. rewrite (body_plain o st c t Hq Hc1 Hc).
    rewrite IH; auto; [|lia].
    simpl. rewrite <- app_assoc. simpl. destruct t; reflexivity.
Qed.

Lemma forallb_Forall_true (f : N -> bool) (s : jsstring) :
  forallb f s = true <-> Forall (fun c => f c = true) s.
Proof.
  induction s as [|c t IH]; simpl.
  - split; auto.
  - rewrite andb_true_iff, IH. split.
    + intros [? ?]; constructor; auto.
    + intros H; inversion H; auto.
Qed.

(** C3, as stated, fails: the empty value, a blank value and a value that
    starts with the comment character have no delimiter, line end or
    double quote, and give no row at all. *)
Lemma roundTrip_counterexample :
  (noSeparator noOptions (str "") = true /\
   tokenize noOptions (str "") = Some [] /\ ~ roundTrip noOptions (str "")) /\
  (noSeparator noOptions (str "  ") = true /\
   tokenize noOptions (str "  ") = Some [] /\ ~ roundTrip noOptions (str "  ")) /\
  (noSeparator noOptions (str "#x") = true /\
   tokenize noOptions (str "#x") = Some [] /\ ~ roundTrip noOptions (str "#x")).
Proof.
  repeat split; try reflexivity; unfold roundTrip; vm_compute; discriminate.
Qed.

(** C3, amended: a value without delimiter, line end, double quote or NUL,
    that is not blank, that starts with the comment character neither as
    it is (the byte order mark apart) nor trimmed, and that does not start
    with the byte order mark when trimming is off, gives exactly one row
    with exactly one field: the value, trimmed when trimming is on. *)
Theorem tokenize_single_field (o : options) (v : jsstring) :
  forallb (plainChar o) v = true ->
  trim v <> [] ->
  commentStart o (stripBOM v) = false ->
  startsWith (trim v) (commentChar o) = false ->
  (trimEnabled o = false -> stripBOM v = v) ->
  tokenize o v = Some [[if trimEnabled o then trim v else v]].
Proof.
  intros Hv Hne Hc1 Hc2 Hbom.
  assert (Hall : Forall (fun c => plainChar o c = true) v)
    by now apply forallb_Forall_true.
  set (d := stripBOM v).
  assert (Hd : Forall (fun c => plainChar o c = true) d)
    by (apply stripBOM_Forall, Hall).
  assert (HnoCR : Forall (fun c => c <> CR) d).
  { eapply Forall_impl; [exact Hd|]. intros c Hc. apply plainChar_spec in Hc.
    apply ceq_false. tauto. }
  assert (HnoDQ : Forall (fun c => c <> DQ) d).
  { eapply Forall_impl; [exact Hd|]. intros c Hc. apply plainChar_spec in Hc.
    apply ceq_false. tauto. }
  assert (Hprep : prepare v = d) by (unfold prepare; now apply normalize_noCR).
  assert (Htrim : trim d = trim v) by apply trim_stripBOM.
  assert (Hdne : d <> []) by (intros E; rewrite E in Htrim; auto).
  unfold tokenize. rewrite Hprep.
  rewrite (loop_plain o d initState (length d)); auto.
  2: now apply forallb_Forall_true.
  unfold finish. simpl.
  replace (0 <? length d) with true
    by (symmetry; apply Nat.ltb_lt; destruct d; simpl; [congruence|lia]).
  simpl. unfold pushRow, pushField. simpl.
  rewrite (finalizeField_plain o false d HnoDQ). simpl.
  set (f := if trimEnabled o then trim d else d).
  assert (Hf : trim f = trim v).
  { unfold f. destruct (trimEnabled o); [now rewrite trim_idem | exact Htrim]. }
  assert (Hfv : f = if trimEnabled o then trim v else v).
  { unfold f. destruct (trimEnabled o) eqn:E; [exact Htrim | now apply Hbom]. }
  assert (Hfne : f <> []) by (intros E; rewrite E in Hf; auto).
  rewrite Hf, Hc2.
  apply seq_eq_nil_false in Hfne, Hne. rewrite Hfne, Hne. simpl.
  unfold removeTrailingEmpty. simpl. rewrite Hfne. simpl. now rewrite Hfv.
Qed.

Lemma tokenize_single_field_witness :
  tokenize noOptions (str " ab c ") = Some [[str "ab c"]].
Proof.
  apply (tokenize_single_field noOptions (str " ab c "));
    [reflexivity | discriminate | reflexivity | reflexivity | discriminate].
Defined.

(** ** Line endings *)

Lemma replaceCRLF_cons (c : N) (t : jsstring) :
  c <> CR -> replaceCRLF (c :: t) = c :: replaceCRLF t.
Proof.
  intros H%ceq_false. simpl. destruct t as [|b u]; [reflexivity|].
  now rewrite H.
Qed.

Lemma replaceCRLF_eq (a b : N) (u : jsstring) :
  replaceCRLF (a :: b :: u) =
  if ceq a CR && ceq b LF then LF :: replaceCRLF u else a :: replaceCRLF (b :: u).
Proof. reflexivity. Qed.

Lemma replaceCRLF_noLF (s : jsstring) :
  Forall (fun c => c <> LF) s -> replaceCRLF s = s.
Proof.
  induction 1 as [|a t Ha Ht IH]; [reflexivity|].
  destruct t as [|b u]; [reflexivity|].
  inversion Ht as [|? ? Hb _]; subst. apply ceq_false in Hb.
  rewrite replaceCRLF_eq, Hb, andb_false_r. now rewrite IH.
Qed.

Lemma normalize_toCRLF (s : jsstring) :
  Forall (fun c => c <> CR) s -> normalize (toCRLF s) = s.
Proof.
  intros H. unfold normalize.
  assert (E : replaceCRLF (toCRLF s) = s).
  { induction H as [|c t Hc Ht IH]; [reflexivity|].
    change (toCRLF (c :: t))
      with ((if ceq c LF then [CR; LF] else [c]) ++ toCRLF t).
    destruct (ceq c LF) eqn:El.
    - apply ceq_true in El. subst.
      change ([CR; LF] ++ toCRLF t) with (CR :: LF :: toCRLF t).
      rewrite replaceCRLF_eq. simpl. now rewrite IH.
    - change ([c] ++ toCRLF t) with (c :: toCRLF t).
      rewrite (replaceCRLF_cons c _ Hc). now rewrite IH. }
  rewrite E. now apply replaceCR_noCR.
Qed.

Lemma normalize_toCR (s : jsstring) :
  Forall (fun c => c <> CR) s -> normalize (toCR s) = s.
Proof.
  intros H. unfold normalize.
  rewrite replaceCRLF_noLF.
  - induction H as [|c t Hc Ht IH]; [reflexivity|].
    simpl. rewrite IH. f_equal.
    destruct (ceq c LF) eqn:El.
    + apply ceq_true in El. now subst.
    + apply ceq_false in Hc. now rewrite Hc.
  - clear H. induction s as [|c t IH]; simpl; constructor; auto.
    destruct (ceq c LF) eqn:El; [discriminate|]. now apply ceq_false.
Qed.

Lemma stripBOM_toCRLF (s : jsstring) : stripBOM (toCRLF s) = toCRLF (stripBOM s).
Proof.
  destruct s as [|c t]; [reflexivity|].
  unfold toCRLF. simpl. destruct (ceq c LF) eqn:El.
  - apply ceq_true in El. subst. reflexivity.
  - simpl. destruct (ceq c BOM); [reflexivity|]. simpl. now rewrite El.
Qed.

Lemma stripBOM_toCR (s : jsstring) : stripBOM (toCR s) = toCR (stripBOM s).
Proof.
  destruct s as [|c t]; [reflexivity|].
  simpl. destruct (ceq c LF) eqn:El.
  - apply ceq_true in El. subst. reflexivity.
  - destruct (ceq c BOM); [reflexivity|]. simpl. now rewrite El.
Qed.

Lemma prepare_toCRLF (s : jsstring) :
  Forall (fun c => c <> CR) s -> prepare (toCRLF s) = prepare s.
Proof.
  intros H. unfold prepare. rewrite stripBOM_toCRLF.
  rewrite normalize_toCRLF, normalize_noCR; auto using stripBOM_Forall.
Qed.

Lemma prepare_toCR (s : jsstring) :
  Forall (fun c => c <> CR) s -> prepare (toCR s) = prepare s.
Proof.
  intros H. unfold prepare. rewrite stripBOM_toCR.
  rewrite normalize_toCR, normalize_noCR; auto using stripBOM_Forall.
Qed.

(** C6: on a text without carriage return, [parseCSV] gives the same
    result after every newline is replaced by a carriage return and a
    newline, and after every newline is replaced by a carriage return; the
    state machine runs on the same normalised text in the three cases. *)
Theorem parseCSV_line_endings (e : engine) (o : options) (text : jsstring) :
  Forall (fun c => c <> CR) text ->
  parseCSV e (toCRLF text) o = parseCSV e text o /\
  parseCSV e (toCR text) o = parseCSV e text o /\
  prepare (toCRLF text) = prepare text /\
  prepare (toCR text) = prepare text.
Proof.
  intros H. unfold parseCSV, tokenize.
  rewrite (prepare_toCRLF text H), (prepare_toCR text H). auto.
Qed.

Lemma parseCSV_line_endings_witness :
  parseCSV engine64k (str "a,b" ++ [CR; LF] ++ str "1,2" ++ [CR; LF]) noOptions
  = parseCSV engine64k (str "a,b" ++ [LF] ++ str "1,2" ++ [LF]) noOptions /\
  parseCSV engine64k (str "a,b" ++ [CR] ++ str "1,2" ++ [CR]) noOptions
  = parseCSV engine64k (str "a,b" ++ [LF] ++ str "1,2" ++ [LF]) noOptions.
Proof.
  destruct (parseCSV_line_endings engine64k noOptions
              (str "a,b" ++ [LF] ++ str "1,2" ++ [LF])) as (H1 & H2 & _).
  - repeat constructor; discriminate.
  - split; [exact H1 | exact H2].
Defined.

(** ** Comment lines *)

Lemma skipToNewline_line (l rest : jsstring) :
  Forall (fun c => c <> LF) l ->
  skipToNewline (l ++ LF :: rest) = (LF :: rest, S (length l)).
Proof.
  induction 1 as [|c t Hc Ht IH]; [reflexivity|].
  simpl. apply ceq_false in Hc. rewrite Hc, IH. reflexivity.
Qed.

Lemma skipToNewline_last (l : jsstring) :
  Forall (fun c => c <> LF) l -> skipToNewline l = ([], length l).
Proof.
  induction 1 as [|c t Hc Ht IH]; [reflexivity|].
  simpl. apply ceq_false in Hc. rewrite Hc, IH. reflexivity.
Qed.

Lemma setLineStart_same (st : state) : setLineStart (lineStart st) st = st.
Proof. now destruct st. Qed.

Lemma loop_cons (o : options) (fuel : nat) (st : state) (c : N) (t : jsstring) :
  loop o (S fuel) st (c :: t) =
  let '(st', rest', _) := body o st c t in loop o fuel st' rest'.
Proof. reflexivity. Qed.

Lemma body_comment (o : options) (st : state) (c : N) (t : jsstring) :
  lineStart st = true ->
  seq_eq [c] (commentChar o) = true ->
  body o st c t =
  let '(r, k) := skipToNewline (c :: t) in (st, tail r, S k).
Proof.
  intros Hs Hc. unfold body. rewrite Hs, Hc. cbn [andb].
  destruct st as [rs r f q ls]. cbn in Hs. subst ls. reflexivity.
Qed.

(** A line seen at a line start with the comment character first is
    passed over, with its newline, and the state is left as it was. *)
Lemma loop_comment_line (o : options) (st : state) (c : N) (l rest : jsstring) (fuel : nat) :
  lineStart st = true ->
  seq_eq [c] (commentChar o) = true ->
  Forall (fun x => x <> LF) (c :: l) ->
  loop o (S fuel) st (c :: l ++ LF :: rest) = loop o fuel st rest.
Proof.
  intros Hs Hc Hl. rewrite loop_cons, (body_comment o st c _ Hs Hc).
  change (c :: l ++ LF :: rest) with ((c :: l) ++ LF :: rest).
  rewrite (skipToNewline_line (c :: l) rest Hl). reflexivity.
Qed.

Lemma loop_comment_last (o : options) (st : state) (c : N) (l : jsstring) (fuel : nat) :
  lineStart st = true ->
  seq_eq [c] (commentChar o) = true ->
  Forall (fun x => x <> LF) (c :: l) ->
  loop o (S fuel) st (c :: l) = Some st.
Proof.
  intros Hs Hc Hl. rewrite loop_cons, (body_comment o st c _ Hs Hc).
  rewrite (skipToNewline_last (c :: l) Hl). now destruct fuel.
Qed.

Lemma pushRow_comment (o : options) (st : state) :
  commentRow o (row st) = true ->
  rows (pushRow o st) = rows st /\ row (pushRow o st) = [].
Proof.
  intros H. unfold pushRow. rewrite H. destruct (blankRow (row st)); auto.
Qed.

(** A text without carriage return or byte order mark is run as it is. *)
Lemma prepare_id (d : jsstring) :
  head d <> Some BOM -> Forall (fun x => x <> CR) d -> prepare d = d.
Proof.
  intros Hb Hcr. unfold prepare.
  assert (E : stripBOM d = d).
  { destruct d as [|x t]; [reflexivity|]. simpl.
    destruct (ceq x BOM) eqn:Ex; [|reflexivity].
    apply ceq_true in Ex. subst. now elim Hb. }
  rewrite E. now apply normalize_noCR.
Qed.

(** C5: a line that has the comment character as its first character, at a
    line start, gives no row: the state machine passes over it and keeps
    its state, whether the line ends with a newline or with the input; the
    input of a comment line, then the line [a,b], gives the one row of
    [a] and [b]; and [pushRow] drops every row whose first field, trimmed,
    starts with the comment character, also when the field was quoted.  An
    input without carriage return that starts with such a line has the
    rows of the text after the line. *)
Theorem comment_suppression (o : options) (st : state) (c : N) (l rest : jsstring) :
  commentChar o = [c] ->
  lineStart st = true ->
  Forall (fun x => x <> LF) (c :: l) ->
  loop o (length (c :: l ++ LF :: rest)) st (c :: l ++ LF :: rest)
    = loop o (length rest) st rest /\
  loop o (length (c :: l)) st (c :: l) = Some st /\
  tokenize noOptions (str "# comment" ++ [LF] ++ str "a,b" ++ [LF])
    = Some [[str "a"; str "b"]] /\
  (forall (st' : state) (f : jsstring) (fs : list jsstring),
      row st' = f :: fs ->
      startsWith (trim f) (commentChar o) = true ->
      rows (pushRow o st') = rows st' /\ row (pushRow o st') = []) /\
  tokenize noOptions (lit "'#x',y" ++ [LF] ++ str "a,b") = Some [[str "a"; str "b"]] /\
  (c <> BOM ->
   Forall (fun x => x <> CR) (c :: l ++ LF :: rest) ->
   head rest <> Some BOM ->
   tokenize o (c :: l ++ LF :: rest) = tokenize o rest).
Proof.
  intros Hcc Hs Hl.
  assert (Hc : seq_eq [c] (commentChar o) = true) by (now apply seq_eq_true).
  split; [|split; [|split; [|split; [|split]]]].
  - simpl length. rewrite (loop_comment_line o st c l rest _ Hs Hc Hl).
    apply loop_fuel; rewrite ?length_app; simpl; lia.
  - simpl length. apply (loop_comment_last o st c l _ Hs Hc Hl).
  - reflexivity.
  - intros st' f fs Hrow Hf. apply pushRow_comment. rewrite Hrow. exact Hf.
  - reflexivity.
  - intros Hb Hcr Hrest. unfold tokenize.
    rewrite (prepare_id (c :: l ++ LF :: rest)), (prepare_id rest); auto.
    + simpl length.
      rewrite (loop_comment_line o initState c l rest _ eq_refl Hc Hl).
      rewrite (loop_fuel o _ (length rest)); [reflexivity| |lia].
      rewrite length_app. simpl. lia.
    + inversion Hcr as [|? ? _ Hcr']; subst.
      apply Forall_app in Hcr' as [_ Hcr']. now inversion Hcr'.
    + simpl. intros E. inversion E. contradiction.
Qed.

Lemma comment_suppression_witness :
  loop noOptions 7 initState (str "# c" ++ [LF] ++ str "a,b")
  = loop noOptions 3 initState (str "a,b").
Proof.
  destruct (comment_suppression noOptions initState 35%N (str " c") (str "a,b"))
    as (H & _); [reflexivity | reflexivity | repeat constructor; discriminate |].
  exact H.
Defined.

(** ** Records *)

Lemma setProp_lookup_ne (obj : gmap jsstring jsstring) (k v h : jsstring) :
  h <> k -> setProp obj k v !! h = obj !! h.
Proof.
  intros Hne. unfold setProp. destruct (seq_eq k (str "__proto__")); [reflexivity|].
  now apply lookup_insert_ne.
Qed.

Lemma setProp_lookup_eq (obj : gmap jsstring jsstring) (k v : jsstring) :
  k <> str "__proto__" -> setProp obj k v !! k = Some v.
Proof.
  intros Hne. unfold setProp.
  destruct (seq_eq k (str "__proto__")) eqn:E.
  - apply seq_eq_true in E. contradiction.
  - apply lookup_insert_eq.
Qed.

Lemma fillObject_lookup_notin (hs r : list jsstring) (h : jsstring) :
  forall (j : nat) (obj : gmap jsstring jsstring),
    h ∉ hs -> fillObject hs r j obj !! h = obj !! h.
Proof.
  induction hs as [|h0 hs IH]; intros j obj Hnot; [reflexivity|].
  apply not_elem_of_cons in Hnot as [Hne Hnot].
  simpl. rewrite IH by assumption. now apply setProp_lookup_ne.
Qed.

Lemma fillObject_lookup_last (hs r : list jsstring) (h : jsstring) :
  forall (i j : nat) (obj : gmap jsstring jsstring),
    hs !! i = Some h ->
    h ∉ drop (S i) hs ->
    h <> str "__proto__" ->
    fillObject hs r j obj !! h = Some (default [] (r !! (j + i))).
Proof.
  induction hs as [|h0 hs IH]; intros i j obj Hi Hnot Hp; [discriminate|].
  destruct i as [|i]; simpl in *.
  - inversion Hi; subst. rewrite drop_0 in Hnot.
    rewrite fillObject_lookup_notin by assumption.
    rewrite Nat.add_0_r. now apply setProp_lookup_eq.
  - rewrite (IH i (S j) _ Hi Hnot Hp). do 3 f_equal. lia.
Qed.

Lemma fillObject_keys (hs r : list jsstring) (k : jsstring) :
  forall (j : nat) (obj : gmap jsstring jsstring),
    is_Some (fillObject hs r j obj !! k) -> k ∈ hs \/ is_Some (obj !! k).
Proof.
  induction hs as [|h0 hs IH]; intros j obj H; [now right|].
  simpl in H. apply IH in H as [H | H].
  - left. now right.
  - destruct (decide (k = h0)) as [-> | Hne].
    + left. now left.
    + right. now rewrite setProp_lookup_ne in H.
Qed.

Lemma fillObject_take (hs r : list jsstring) :
  forall (j : nat) (obj : gmap jsstring jsstring),
    fillObject hs r j obj = fillObject hs (take (j + length hs) r) j obj.
Proof.
  induction hs as [|h0 hs IH]; intros j obj; [reflexivity|].
  simpl. rewrite lookup_take_lt by lia.
  rewrite (IH (S j)). do 2 f_equal. lia.
Qed.

(** C7, as stated, fails on a header with the same name twice: the name
    has the value of its last position. *)
Lemma headersMapByPosition_counterexample :
  (forall e : engine,
      parseCSV e (str "a,a" ++ [LF] ++ str "1,2") noOptions
      = Some (Returns [ {[ str "a" := str "2" ]} ])) /\
  buildObject [str "a"; str "a"] [str "1"; str "2"] !! str "a" = Some (str "2") /\
  ~ headersMapByPosition [str "a"; str "a"] [str "1"; str "2"].
Proof.
  split; [intros e; vm_compute; reflexivity|]. split; [vm_compute; reflexivity|].
  intros H. specialize (H 0 (str "a") eq_refl). vm_compute in H. discriminate.
Qed.

(** C7, amended: in the object built for a data row, a header name other
    than [__proto__] has the row's value at the last position of the name
    in the header, or the empty string when the row has no such position;
    the object has no other property than the header names, and the values
    of the row beyond the header are dropped.  Under the header [a,b,c] the
    row [1,2] gives the record of [a] to [1], [b] to [2] and [c] to the
    empty string, and the row [1,2,3,4] the record of [a] to [1], [b] to
    [2] and [c] to [3]. *)
Theorem buildObject_ragged (hs r : list jsstring) (j : nat) (h : jsstring) :
  hs !! j = Some h ->
  h ∉ drop (S j) hs ->
  h <> str "__proto__" ->
  buildObject hs r !! h = Some (default [] (r !! j)) /\
  (forall k : jsstring, is_Some (buildObject hs r !! k) -> k ∈ hs) /\
  buildObject hs r = buildObject hs (take (length hs) r) /\
  buildObject [str "a"; str "b"; str "c"] [str "1"; str "2"]
    = {[ str "a" := str "1"; str "b" := str "2"; str "c" := str "" ]} /\
  buildObject [str "a"; str "b"; str "c"] [str "1"; str "2"; str "3"; str "4"]
    = {[ str "a" := str "1"; str "b" := str "2"; str "c" := str "3" ]} /\
  (forall e : engine,
      parseCSV e (str "a,b,c" ++ [LF] ++ str "1,2" ++ [LF] ++ str "1,2,3,4") noOptions
      = Some (Returns
                [ {[ str "a" := str "1"; str "b" := str "2"; str "c" := str "" ]};
                  {[ str "a" := str "1"; str "b" := str "2"; str "c" := str "3" ]} ])).
Proof.
  intros Hj Hlast Hp. unfold buildObject.
  split; [|split; [|split; [|split; [|split]]]].
  - now rewrite (fillObject_lookup_last hs r h j 0 ∅ Hj Hlast Hp).
  - intros k Hk. apply fillObject_keys in Hk as [Hk | Hk]; [exact Hk|].
    rewrite lookup_empty in Hk. now destruct Hk.
  - apply (fillObject_take hs r 0 ∅).
  - vm_compute. reflexivity.
  - vm_compute. reflexivity.
  - intros e. vm_compute. reflexivity.
Qed.

Lemma buildObject_ragged_witness :
  buildObject [str "id"; str "x"; str "id"] [str "1"; str "2"] !! str "id"
  = Some (str "").
Proof.
  destruct (buildObject_ragged [str "id"; str "x"; str "id"] [str "1"; str "2"]
              2 (str "id")) as (H & _).
  - reflexivity.
  - simpl. apply not_elem_of_nil.
  - discriminate.
  - exact H.
Defined.

(** ** Invariants of the state machine *)

Lemma invariant_init : invariant initState.
Proof. split; simpl; auto; discriminate. Qed.

Lemma pushRow_rows (o : options) (st : state) :
  Forall (fun r => blankRow r = false) (rows st) ->
  Forall (fun r => blankRow r = false) (rows (pushRow o st)).
Proof.
  intros H. unfold pushRow.
  destruct (blankRow (row st)) eqn:E; [exact H|].
  destruct (commentRow o (row st)); [exact H|].
  simpl. apply Forall_app. split; [exact H|]. now constructor.
Qed.

Lemma pushRow_fields (o : options) (st : state) :
  row (pushRow o st) = [] /\ field (pushRow o st) = field st /\
  inQuotes (pushRow o st) = inQuotes st.
Proof.
  unfold pushRow. destruct (blankRow (row st)); [auto|].
  destruct (commentRow o (row st)); auto.
Qed.

Lemma body_invariant (o : options) (st st' : state) (c : N) (t r : jsstring) (k : nat) :
  invariant st -> body o st c t = (st', r, k) -> invariant st'.
Proof.
  intros [Hq Hr Hs]. unfold body.
  destruct (lineStart st && seq_eq [c] (commentChar o)) eqn:E1.
  { destruct (skipToNewline (c :: t)) as [r' k']. intros H; inversion H; subst.
    apply andb_true_iff in E1 as [E1 _].
    split; simpl; auto. }
  destruct (negb (inQuotes st) && seq_eq [c] (delimiter o)) eqn:E2.
  { intros H; inversion H; subst. apply andb_true_iff in E2 as [E2 _].
    apply negb_true_iff in E2.
    split; simpl; auto; congruence. }
  destruct (negb (inQuotes st) && ceq c LF) eqn:E3.
  { intros H; inversion H; subst. apply andb_true_iff in E3 as [E3 _].
    apply negb_true_iff in E3.
    destruct (pushRow_fields o (pushField o st)) as (F1 & F2 & F3).
    split; simpl.
    - rewrite F3. simpl. congruence.
    - now apply pushRow_rows.
    - intros _. rewrite F1, F2, F3. auto. }
  destruct (negb (inQuotes st) && ceq c NUL) eqn:E4.
  { intros H; inversion H; subst. apply andb_true_iff in E4 as [E4 _].
    apply negb_true_iff in E4.
    destruct (pushRow_fields o (pushField o st)) as (F1 & F2 & F3).
    split; simpl.
    - rewrite F3. simpl. congruence.
    - now apply pushRow_rows.
    - intros _. rewrite F1, F2, F3. auto. }
  destruct (ceq c DQ) eqn:E5.
  { apply ceq_true in E5. subst c.
    destruct (inQuotes st) eqn:Eq; simpl.
    - destruct (Hq eq_refl) as [b Hb].
      destruct t as [|c2 t2]; [|destruct (ceq c2 DQ)];
        intros H; inversion H; subst; split; simpl; auto; try discriminate.
      intros _. rewrite Hb. simpl. eauto.
    - destruct (seq_eq (field st) []) eqn:Ef;
        intros H; inversion H; subst; split; simpl; auto; try discriminate.
      + intros _. apply seq_eq_nil in Ef. rewrite Ef. simpl. eauto.
      + congruence. }
  destruct (ceq c LF && inQuotes st) eqn:E6.
  { intros H; inversion H; subst. apply andb_true_iff in E6 as [_ E6].
    split; simpl; auto.
    - intros _. destruct (Hq E6) as [b Hb]. rewrite Hb. simpl. eauto.
    - intros Hl. destruct (Hs Hl) as (_ & _ & Hn). congruence. }
  intros H; inversion H; subst. split; simpl; auto; try discriminate.
  intros Hi. destruct (Hq Hi) as [b Hb]. rewrite Hb. simpl. eauto.
Qed.

Lemma loop_invariant (o : options) (fuel : nat) :
  forall (st st' : state) (rest : jsstring),
    invariant st -> loop o fuel st rest = Some st' -> invariant st'.
Proof.
  induction fuel as [|fuel IH]; intros st st' rest Hinv H.
  - destruct rest; simpl in H; [|discriminate]. now inversion H; subst.
  - destruct rest as [|c t]; simpl in H; [now inversion H; subst|].
    destruct (body o st c t) as [[st1 r] k] eqn:E.
    eapply IH; [|exact H]. eapply body_invariant; eauto.
Qed.

(** The loop that removes empty trailing rows finds none to remove. *)
Lemma removeTrailingEmpty_id (rs : list (list jsstring)) :
  Forall (fun r => blankRow r = false) rs -> removeTrailingEmpty rs = rs.
Proof.
  intros H. unfold removeTrailingEmpty.
  assert (E : popEmptyRows (rev rs) = rev rs).
  { apply Forall_rev in H. destruct (rev rs) as [|r t]; [reflexivity|].
    inversion H as [|? ? Hr _]; subst.
    destruct r as [|f [|g fs]]; try reflexivity.
    simpl in *. apply orb_false_iff in Hr as [Hr _]. now rewrite Hr. }
  rewrite E. apply rev_involutive.
Qed.

Lemma finish_rows (o : options) (st : state) :
  Forall (fun r => blankRow r = false) (rows st) ->
  Forall (fun r => blankRow r = false) (rows (finish o st)).
Proof.
  intros H. unfold finish.
  destruct ((0 <? length (field st)) || (0 <? length (row st))); [|exact H].
  now apply pushRow_rows.
Qed.

(** The rows of [tokenize] are the rows of the state after the last
    field and row are handled. *)
Lemma tokenize_rows (o : options) (data : jsstring) (st : state) :
  loop o (length (prepare data)) initState (prepare data) = Some st ->
  tokenize o data = Some (rows (finish o st)).
Proof.
  intros H. unfold tokenize. rewrite H. f_equal.
  apply removeTrailingEmpty_id, finish_rows.
  apply (loop_invariant o _ _ _ _ invariant_init H).
Qed.

(** ** A quoted field left open at the end of the input *)

Lemma trim_cons (x : N) (b : jsstring) :
  isWhiteSpace x = false -> trim (x :: b) = x :: rev (trimStart (rev b)).
Proof.
  intros Hx. unfold trim, trimEnd. rewrite (trimStart_fix x b Hx). simpl.
  rewrite (trimStart_app (rev b) [] x Hx), rev_app_distr. reflexivity.
Qed.

Lemma blankRow_snoc_quoted (r : list jsstring) (b : jsstring) :
  blankRow (r ++ [DQ :: b]) = false.
Proof.
  destruct r as [|g [|g' r']]; simpl; try reflexivity.
  all: try (rewrite (trim_cons DQ b eq_refl); reflexivity).
  all: try (destruct r'; reflexivity).
Qed.

(** C9, as stated, fails when the open field ends with an escaped quote:
    the buffer then starts and ends with a double quote, and the field
    loses both. *)
Lemma openFieldKeptRaw_counterexample :
  (exists st : state,
      loop noHeader (length (prepare (lit "a,'b''"))) initState (prepare (lit "a,'b''"))
        = Some st /\
      inQuotes st = true /\ field st = lit "'b'") /\
  tokenize noHeader (lit "a,'b''") = Some [[str "a"; str "b"]] /\
  (forall e : engine,
      parseCSV e (lit "a,'b''") noHeader
      = Some (Returns [ {[ str "field1" := str "a"; str "field2" := str "b" ]} ])) /\
  ~ openFieldKeptRaw noHeader (lit "a,'b''").
Proof.
  split; [eexists; split; [vm_compute; reflexivity | split; reflexivity]|].
  split; [vm_compute; reflexivity|]. split.
  { intros e. unfold parseCSV.
    replace (tokenize noHeader (lit "a,'b''")) with (Some [[str "a"; str "b"]])
      by (vm_compute; reflexivity).
    cbn [option_map].
    rewrite buildRecords_generic by (reflexivity || apply accepts_one).
    vm_compute. reflexivity. }
  intros H. specialize (H _ eq_refl eq_refl). vm_compute in H. discriminate.
Qed.

(** C9, amended: when the input ends with a quoted field open and the
    buffer has less than two characters or does not end with a double
    quote, the buffer starts with the opening double quote and is
    appended to the row as it is, not trimmed; the row is then kept as the
    last row, unless its first field, trimmed, starts with the comment
    character.  The input of [a], a delimiter, a double quote and [bc],
    without header, gives one record whose second field is the double
    quote and [bc]. *)
Theorem open_quote_at_end (e : engine) (o : options) (data : jsstring) (st : state) :
  loop o (length (prepare data)) initState (prepare data) = Some st ->
  inQuotes st = true ->
  length (field st) < 2 \/ endsWith (field st) [DQ] = false ->
  startsWith (field st) [DQ] = true /\
  row (pushField o st) = row st ++ [field st] /\
  tokenize o data =
    Some (if commentRow o (row st ++ [field st]) then rows st
          else rows st ++ [row st ++ [field st]]) /\
  parseCSV e (lit "a,'bc") noHeader
    = Some (Returns [ {[ str "field1" := str "a"; str "field2" := lit "'bc" ]} ]).
Proof.
  intros Hloop Hq Hend.
  pose proof (loop_invariant o _ _ _ _ invariant_init Hloop) as [Hi _ _].
  destruct (Hi Hq) as [b Hb].
  assert (Hfin : finalizeField o true (field st) = field st).
  { unfold finalizeField. cbn [negb andb].
    destruct Hend as [Hlen | He].
    - apply Nat.leb_gt in Hlen. now rewrite Hlen.
    - now rewrite He, andb_false_r. }
  assert (Hrow : row (pushField o st) = row st ++ [field st]).
  { unfold pushField. simpl. now rewrite Hq, Hfin. }
  split; [rewrite Hb; reflexivity|]. split; [exact Hrow|].
  split.
  2:{ unfold parseCSV.
      replace (tokenize noHeader (lit "a,'bc")) with (Some [[str "a"; lit "'bc"]])
        by (vm_compute; reflexivity).
      cbn [option_map].
      rewrite buildRecords_generic by (reflexivity || apply accepts_one).
      vm_compute. reflexivity. }
  rewrite (tokenize_rows o data st Hloop). unfold finish.
  rewrite Hb at 1. simpl. unfold pushRow. rewrite Hrow. simpl.
  rewrite Hb at 1. rewrite blankRow_snoc_quoted.
  destruct (commentRow o (row st ++ [field st])); reflexivity.
Qed.

Lemma open_quote_at_end_witness :
  tokenize noHeader (lit "a,'bc") = Some [[str "a"; lit "'bc"]].
Proof.
  destruct (open_quote_at_end engine64k noHeader (lit "a,'bc")
              (mkState [] [str "a"] (lit "'bc") true false))
    as (_ & _ & H & _).
  - vm_compute. reflexivity.
  - reflexivity.
  - right. reflexivity.
  - rewrite H. reflexivity.
Defined.

(** ** The iterations of the main loop, case by case *)

Lemma loop_len_cons (o : options) (st : state) (c : N) (t : jsstring) :
  loop o (length (c :: t)) st (c :: t) =
  let '(st', r, _) := body o st c t in loop o (length r) st' r.
Proof.
  simpl length. rewrite loop_cons.
  destruct (body o st c t) as [[st' r] k] eqn:E.
  apply body_progress in E. apply loop_fuel; lia.
Qed.

Lemma body_open_quote (o : options) (st : state) (t : jsstring) :
  inQuotes st = false -> lineStart st = false -> field st = [] ->
  seq_eq [DQ] (delimiter o) = false ->
  body o st DQ t = (mkState (rows st) (row st) [DQ] true false, t, 1).
Proof.
  intros Hq Hs Hf Hd. unfold body, setLineStart, addChar, setInQuotes.
  cbn [rows row field inQuotes lineStart]. rewrite Hq, Hs, Hd, Hf. reflexivity.
Qed.

Lemma body_escaped_quote (o : options) (st : state) (t : jsstring) :
  inQuotes st = true -> lineStart st = false ->
  body o st DQ (DQ :: t) =
  (mkState (rows st) (row st) (field st ++ [DQ]) true false, t, 2).
Proof.
  intros Hq Hs. unfold body. rewrite Hq, Hs. simpl.
  unfold setLineStart, addChar. simpl. now rewrite Hq.
Qed.

Lemma body_close_quote (o : options) (st : state) (t : jsstring) :
  inQuotes st = true -> lineStart st = false -> head t <> Some DQ ->
  body o st DQ t =
  (mkState (rows st) (row st) (field st ++ [DQ]) false false, t, 2).
Proof.
  intros Hq Hs Ht. unfold body. rewrite Hq, Hs. simpl.
  destruct t as [|c2 t2]; [reflexivity|].
  destruct (ceq c2 DQ) eqn:E; [|reflexivity].
  apply ceq_true in E. subst. now elim Ht.
Qed.

Lemma body_quoted_char (o : options) (st : state) (c : N) (t : jsstring) :
  inQuotes st = true -> lineStart st = false -> c <> DQ ->
  body o st c t =
  (mkState (rows st) (row st) (field st ++ [c]) true false, t, 1).
Proof.
  intros Hq Hs Hc%ceq_false. unfold body. rewrite Hq, Hs, Hc. simpl.
  unfold setLineStart, addChar. simpl. rewrite Hq, Hs.
  destruct (ceq c LF) eqn:E; [|reflexivity].
  apply ceq_true in E. now subst.
Qed.

(** Inside a quoted field, the characters up to the next double quote go
    to the buffer, whatever they are. *)
Lemma loop_quoted_run (o : options) (x rest : jsstring) :
  forall st : state,
    Forall (fun c => c <> DQ) x ->
    inQuotes st = true -> lineStart st = false ->
    loop o (length (x ++ rest)) st (x ++ rest) =
    loop o (length rest) (mkState (rows st) (row st) (field st ++ x) true false) rest.
Proof.
  induction x as [|c x IH]; intros st Hx Hq Hs.
  - simpl. rewrite app_nil_r. destruct st; simpl in *. now subst.
  - inversion Hx as [|? ? Hc Hx']; subst.
    change ((c :: x) ++ rest) with (c :: x ++ rest).
    rewrite loop_len_cons, (body_quoted_char o st c _ Hq Hs Hc).
    rewrite IH by auto. simpl. now rewrite <- app_assoc.
Qed.

Lemma unescapeQuotes_eq (a b : N) (u : jsstring) :
  unescapeQuotes (a :: b :: u) =
  if ceq a DQ && ceq b DQ then DQ :: unescapeQuotes u
  else a :: unescapeQuotes (b :: u).
Proof. reflexivity. Qed.

Lemma unescapeQuotes_cons (a : N) (t : jsstring) :
  a <> DQ -> unescapeQuotes (a :: t) = a :: unescapeQuotes t.
Proof.
  intros H%ceq_false. destruct t as [|b u]; [reflexivity|].
  now rewrite unescapeQuotes_eq, H.
Qed.

Lemma unescapeQuotes_plain (s : jsstring) :
  Forall (fun c => c <> DQ) s -> unescapeQuotes s = s.
Proof.
  induction 1 as [|a t Ha Ht IH]; [reflexivity|].
  now rewrite (unescapeQuotes_cons a t Ha), IH.
Qed.

Lemma unescapeQuotes_pair (x y : jsstring) :
  Forall (fun c => c <> DQ) x ->
  unescapeQuotes (x ++ DQ :: DQ :: y) = x ++ DQ :: unescapeQuotes y.
Proof.
  induction 1 as [|a t Ha Ht IH]; [reflexivity|].
  change ((a :: t) ++ DQ :: DQ :: y) with (a :: (t ++ DQ :: DQ :: y)).
  now rewrite (unescapeQuotes_cons a _ Ha), IH.
Qed.

Lemma trim_quoted (s : jsstring) : trim (DQ :: s ++ [DQ]) = DQ :: s ++ [DQ].
Proof.
  rewrite (trim_cons DQ _ eq_refl), rev_app_distr. simpl.
  now rewrite rev_involutive.
Qed.

(** A buffer between two double quotes is finalized to its inside, with
    the pairs of double quotes replaced. *)
Lemma finalizeField_quoted (o : options) (s : jsstring) :
  finalizeField o false (DQ :: s ++ [DQ]) = unescapeQuotes s.
Proof.
  unfold finalizeField.
  assert (E : (if negb false && trimEnabled o then trim (DQ :: s ++ [DQ])
               else DQ :: s ++ [DQ]) = DQ :: s ++ [DQ])
    by (destruct (trimEnabled o); simpl; [apply trim_quoted | reflexivity]).
  rewrite E.
  replace (2 <=? length (DQ :: s ++ [DQ])) with true
    by (symmetry; apply Nat.leb_le; simpl; rewrite length_app; simpl; lia).
  replace (endsWith (DQ :: s ++ [DQ]) [DQ]) with true
    by (unfold endsWith; simpl; rewrite rev_app_distr; reflexivity).
  simpl. now rewrite slice_1_m1_quoted.
Qed.

(** ** Escaped quotes *)

(** C10: in a quoted field, two escaped quotes in a row, which are four
    double quotes, leave one double quote in the value.  Each pair is
    first read as one double quote into the buffer, which then holds two
    double quotes in a row; the finalizer replaces them by one.  The input
    of the one quoted field with [a], four double quotes and [b] gives the
    value of [a], one double quote and [b]. *)
Theorem escaped_quotes_collapse_twice (o : options) (st : state) (x y : jsstring) :
  Forall (fun c => c <> DQ) x ->
  Forall (fun c => c <> DQ) y ->
  inQuotes st = false -> lineStart st = false -> field st = [] ->
  delimiter o <> [DQ] ->
  let input := DQ :: x ++ [DQ; DQ; DQ; DQ] ++ y ++ [DQ] in
  loop o (length input) st input =
    Some (mkState (rows st) (row st) (DQ :: (x ++ [DQ; DQ] ++ y) ++ [DQ]) false false) /\
  finalizeField o false (DQ :: (x ++ [DQ; DQ] ++ y) ++ [DQ]) = x ++ [DQ] ++ y /\
  tokenize noOptions (lit "'a''''b'") = Some [[lit "a'b"]] /\
  tokenize noHeader (lit "'a''''b'") = Some [[lit "a'b"]].
Proof.
  intros Hx Hy Hq Hs Hf Hd input.
  split; [|split; [|split; reflexivity]].
  - unfold input. rewrite loop_len_cons, body_open_quote; auto.
    2: { destruct (seq_eq [DQ] (delimiter o)) eqn:E; [|reflexivity].
         apply seq_eq_true in E. congruence. }
    rewrite loop_quoted_run by auto. simpl rows; simpl row; simpl field.
    change ([DQ; DQ; DQ; DQ] ++ y ++ [DQ]) with (DQ :: DQ :: DQ :: DQ :: y ++ [DQ]).
    rewrite loop_len_cons, body_escaped_quote by reflexivity.
    rewrite loop_len_cons, body_escaped_quote by reflexivity.
    rewrite loop_quoted_run by auto. simpl rows; simpl row; simpl field.
    rewrite loop_len_cons, body_close_quote by (try reflexivity; discriminate).
    simpl. do 2 f_equal. rewrite <- !app_assoc. reflexivity.
  - rewrite finalizeField_quoted.
    change (x ++ [DQ; DQ] ++ y) with (x ++ DQ :: DQ :: y).
    now rewrite (unescapeQuotes_pair x y Hx), (unescapeQuotes_plain y Hy).
Qed.

Lemma escaped_quotes_collapse_twice_witness :
  finalizeField noOptions false (lit "'a, ''b'") = lit "a, 'b".
Proof.
  destruct (escaped_quotes_collapse_twice noOptions
              (mkState [] [] [] false false) (str "a, ") (str "b"))
    as (_ & H & _).
  - repeat constructor; discriminate.
  - repeat constructor; discriminate.
  - reflexivity.
  - reflexivity.
  - reflexivity.
  - discriminate.
  - exact H.
Defined.

(** ** The state machine, line by line *)

Section LineByLine.

(** The options of the call. *)
Variable o : options.

Lemma pushRow_addRows (rs : list (list jsstring)) (st : state) :
  pushRow o (addRows rs st) = addRows rs (pushRow o st).
Proof.
  unfold pushRow, addRows. simpl.
  destruct (blankRow (row st)); [reflexivity|].
  destruct (commentRow o (row st)); [reflexivity|].
  simpl. now rewrite app_assoc.
Qed.

Lemma pushField_addRows (rs : list (list jsstring)) (st : state) :
  pushField o (addRows rs st) = addRows rs (pushField o st).
Proof. reflexivity. Qed.

Lemma setLineStart_addRows (b : bool) (rs : list (list jsstring)) (st : state) :
  setLineStart b (addRows rs st) = addRows rs (setLineStart b st).
Proof. reflexivity. Qed.

Lemma setInQuotes_addRows (b : bool) (rs : list (list jsstring)) (st : state) :
  setInQuotes b (addRows rs st) = addRows rs (setInQuotes b st).
Proof. reflexivity. Qed.

Lemma addChar_addRows (c : N) (rs : list (list jsstring)) (st : state) :
  addChar c (addRows rs st) = addRows rs (addChar c st).
Proof. reflexivity. Qed.

Lemma body_addRows (rs : list (list jsstring)) (st : state)
  (c : N) (t : jsstring) :
  body o (addRows rs st) c t =
  let '(st', r, k) := body o st c t in (addRows rs st', r, k).
Proof.
  unfold body.
  change (lineStart (addRows rs st)) with (lineStart st).
  change (inQuotes (addRows rs st)) with (inQuotes st).
  change (field (addRows rs st)) with (field st).
  destruct (skipToNewline (c :: t)) as [r0 k0].
  destruct_tests;
  rewrite ?setInQuotes_addRows, ?addChar_addRows, ?pushField_addRows,
    ?pushRow_addRows, ?setLineStart_addRows; reflexivity.
Qed.

Lemma loop_addRows (rs : list (list jsstring)) (fuel : nat) :
  forall (st : state) (d : jsstring),
    loop o fuel (addRows rs st) d = option_map (addRows rs) (loop o fuel st d).
Proof.
  induction fuel as [|fuel IH]; intros st d.
  - destruct d; reflexivity.
  - destruct d as [|c t]; [reflexivity|].
    rewrite !loop_cons, body_addRows.
    destruct (body o st c t) as [[st' r] k]. apply IH.
Qed.

Lemma body_delimiter (st : state) (c : N) (t : jsstring) :
  lineStart st && seq_eq [c] (commentChar o) = false ->
  inQuotes st = false ->
  seq_eq [c] (delimiter o) = true ->
  body o st c t = (setLineStart false (pushField o st), t, 1).
Proof. intros Hc Hq Hd. unfold body. now rewrite Hc, Hq, Hd. Qed.

Lemma body_newline (st : state) (t : jsstring) :
  lineStart st && seq_eq [LF] (commentChar o) = false ->
  inQuotes st = false ->
  seq_eq [LF] (delimiter o) = false ->
  body o st LF t = (setLineStart true (pushRow o (pushField o st)), t, 1).
Proof. intros Hc Hq Hd. unfold body. now rewrite Hc, Hq, Hd. Qed.

Lemma body_first_quote (st : state) (t : jsstring) :
  lineStart st && seq_eq [DQ] (commentChar o) = false ->
  inQuotes st = false ->
  seq_eq [DQ] (delimiter o) = false ->
  seq_eq (field st) [] = true ->
  body o st DQ t = (setLineStart false (addChar DQ (setInQuotes true st)), t, 1).
Proof. intros Hc Hq Hd Hf. unfold body. now rewrite Hc, Hq, Hd, Hf. Qed.

Lemma body_stray_quote (st : state) (t : jsstring) :
  lineStart st && seq_eq [DQ] (commentChar o) = false ->
  inQuotes st = false ->
  seq_eq [DQ] (delimiter o) = false ->
  seq_eq (field st) [] = false ->
  body o st DQ t = (setLineStart false (addChar DQ st), t, 1).
Proof. intros Hc Hq Hd Hf. unfold body. now rewrite Hc, Hq, Hd, Hf. Qed.

Lemma body_unquoted_char (st : state) (c : N) (t : jsstring) :
  lineStart st && seq_eq [c] (commentChar o) = false ->
  inQuotes st = false ->
  seq_eq [c] (delimiter o) = false ->
  ceq c LF = false -> ceq c NUL = false -> ceq c DQ = false ->
  body o st c t = (setLineStart false (addChar c st), t, 1).
Proof.
  intros Hc Hq Hd Hl Hn Hdq. unfold body. now rewrite Hc, Hq, Hd, Hl, Hn, Hdq.
Qed.

Lemma nonEmpty_addChar (b : bool) (c : N) (st : state) :
  nonEmpty (setLineStart b (addChar c st)).
Proof. right. simpl. now destruct (field st). Qed.

Lemma nonEmpty_pushField (b : bool) (st : state) :
  nonEmpty (setLineStart b (pushField o st)).
Proof. left. simpl. now destruct (row st). Qed.

Create HintDb csv.
#[local] Hint Resolve nonEmpty_addChar nonEmpty_pushField : csv.

Lemma lineRun_step (st st1 : state) (c : N) (t l : jsstring)
  (r : option jsstring) (k k' : nat) :
  body o st c t = (st1, t, k) ->
  body o st c l = (st1, l, k') ->
  rows st1 = rows st ->
  nonEmpty st1 ->
  lineRun o st1 t l r ->
  lineRun o st (c :: t) (c :: l) r.
Proof.
  intros Ht Hl Hrows Hne (st_l & H1 & H2 & H3 & H4).
  exists st_l. split; [|split; [|split]].
  - now rewrite loop_len_cons, Hl.
  - congruence.
  - intros _. apply H3. now right.
  - destruct r as [rest|].
    + destruct H4 as (E1 & E2 & E3). split; [now rewrite E1|].
      split; [exact E2|]. now rewrite loop_len_cons, Ht.
    + now rewrite H4.
Qed.

Lemma lineRun_step2 (st st1 : state) (c c2 : N) (t l : jsstring)
  (r : option jsstring) (k k' : nat) :
  body o st c (c2 :: t) = (st1, t, k) ->
  body o st c (c2 :: l) = (st1, l, k') ->
  rows st1 = rows st ->
  nonEmpty st1 ->
  lineRun o st1 t l r ->
  lineRun o st (c :: c2 :: t) (c :: c2 :: l) r.
Proof.
  intros Ht Hl Hrows Hne (st_l & H1 & H2 & H3 & H4).
  exists st_l. split; [|split; [|split]].
  - now rewrite loop_len_cons, Hl.
  - congruence.
  - intros _. apply H3. now right.
  - destruct r as [rest|].
    + destruct H4 as (E1 & E2 & E3). split; [now rewrite E1|].
      split; [exact E2|]. now rewrite loop_len_cons, Ht.
    + now rewrite H4.
Qed.

Lemma lineRun_head (st : state) (d l : jsstring) (r : option jsstring) :
  lineRun o st d l r -> head d <> Some DQ -> head l <> Some DQ.
Proof.
  intros (st_l & _ & _ & _ & H) Hd.
  destruct l as [|c l]; [discriminate|].
  destruct r as [rest|]; [destruct H as [-> _] | subst d]; exact Hd.
Qed.

Lemma scanLine_cons (q fe : bool) (c : N) (t : jsstring) :
  scanLine o q fe (c :: t) =
  if negb q && seq_eq [c] (delimiter o) then
    consLine c (scanLine o false true t)
  else if negb q && ceq c LF then ([], Some t)
  else if ceq c DQ then
    if negb q then
      if fe then consLine c (scanLine o true false t)
      else consLine c (scanLine o false false t)
    else
      match t with
      | c2 :: t2 =>
          if ceq c2 DQ then consLine c (consLine c2 (scanLine o true false t2))
          else consLine c (scanLine o false false t)
      | [] => ([c], None)
      end
  else consLine c (scanLine o q false t).
Proof. reflexivity. Qed.

Lemma scanLine_run (n : nat) :
  forall (d : jsstring) (st : state) (l : jsstring) (r : option jsstring),
    length d <= n ->
    Forall (fun c => c <> NUL) d ->
    lineStart st && commentStart o d = false ->
    (inQuotes st = true -> lineStart st = false) ->
    scanLine o (inQuotes st) (seq_eq (field st) []) d = (l, r) ->
    lineRun o st d l r.
Proof.
  induction n as [|n IH]; intros d st l r Hlen Hnul Hc Hql Hscan.
  { destruct d; simpl in Hlen; [|lia]. inversion Hscan; subst.
    exists st. repeat split; auto. intros [H | H]; [congruence | exact H]. }
  destruct d as [|c t].
  { inversion Hscan; subst.
    exists st. repeat split; auto. intros [H | H]; [congruence | exact H]. }
  simpl in Hlen. inversion Hnul as [|? ? Hcn Htn]; subst.
  apply ceq_false in Hcn.
  change (commentStart o (c :: t)) with (seq_eq [c] (commentChar o)) in Hc.
  assert (IH' : forall st1 l' r',
             lineStart st1 = false ->
             scanLine o (inQuotes st1) (seq_eq (field st1) []) t = (l', r') ->
             lineRun o st1 t l' r').
  { intros st1 l' r' Hs1 Hsc. apply IH; auto; [lia|]. now rewrite Hs1. }
  rewrite scanLine_cons in Hscan.
  destruct (inQuotes st) eqn:Hq.
  - (* inside a quoted field *)
    specialize (Hql eq_refl). cbn [negb andb] in Hscan.
    destruct (ceq c DQ) eqn:Edq.
    + apply ceq_true in Edq. subst c.
      destruct t as [|c2 t2].
      * inversion Hscan; subst.
        exists (mkState (rows st) (row st) (field st ++ [DQ]) false false).
        rewrite loop_len_cons, (body_close_quote o st [] Hq Hql) by discriminate.
        repeat split; auto. intros _. right. simpl. now destruct (field st).
      * destruct (ceq c2 DQ) eqn:E2.
        -- apply ceq_true in E2. subst c2.
           destruct (scanLine o true false t2) as [l' r'] eqn:Esc.
           unfold consLine in Hscan; cbn [fst snd] in Hscan.
           injection Hscan as <- <-.
           inversion Htn as [|? ? _ Htn2]; subst.
           eapply lineRun_step2.
           ++ apply (body_escaped_quote o st t2 Hq Hql).
           ++ apply (body_escaped_quote o st l' Hq Hql).
           ++ reflexivity.
           ++ right. simpl. now destruct (field st).
           ++ apply IH.
              ** simpl in *; lia.
              ** exact Htn2.
              ** reflexivity.
              ** reflexivity.
              ** simpl. rewrite seq_eq_snoc. exact Esc.
        -- destruct (scanLine o false false (c2 :: t2)) as [l' r'] eqn:Esc.
           unfold consLine in Hscan; cbn [fst snd] in Hscan.
           injection Hscan as <- <-.
           assert (Hrun : lineRun o
                     (mkState (rows st) (row st) (field st ++ [DQ]) false false)
                     (c2 :: t2) l' r').
           { apply IH'; [reflexivity|]. simpl. rewrite seq_eq_snoc. exact Esc. }
           assert (Hh : head (c2 :: t2) <> Some DQ).
           { simpl. intros E. inversion E; subst. now rewrite N.eqb_refl in E2. }
           eapply lineRun_step; [| | | |exact Hrun].
           ++ apply (body_close_quote o st _ Hq Hql Hh).
           ++ apply (body_close_quote o st _ Hq Hql).
              eapply lineRun_head; eauto.
           ++ reflexivity.
           ++ right. simpl. now destruct (field st).
    + destruct (scanLine o true false t) as [l' r'] eqn:Esc.
      unfold consLine in Hscan; cbn [fst snd] in Hscan.
      injection Hscan as <- <-.
      apply ceq_false in Edq.
      eapply lineRun_step.
      * apply (body_quoted_char o st c t Hq Hql Edq).
      * apply (body_quoted_char o st c l' Hq Hql Edq).
      * reflexivity.
      * right. simpl. now destruct (field st).
      * apply IH'; [reflexivity|]. simpl. rewrite seq_eq_snoc. exact Esc.
  - (* outside *)
    cbn [negb andb] in Hscan.
    destruct (seq_eq [c] (delimiter o)) eqn:Ed.
    + destruct (scanLine o false true t) as [l' r'] eqn:Esc.
      unfold consLine in Hscan; cbn [fst snd] in Hscan.
      injection Hscan as <- <-.
      eapply lineRun_step.
      * apply (body_delimiter st c t Hc Hq Ed).
      * apply (body_delimiter st c l' Hc Hq Ed).
      * reflexivity.
      * auto with csv.
      * apply IH'; [reflexivity|]. simpl. now rewrite Hq.
    + destruct (ceq c LF) eqn:El.
      * apply ceq_true in El. subst c. inversion Hscan; subst.
        exists st. split; [reflexivity|]. split; [reflexivity|].
        split; [intros [H | H]; [congruence | exact H]|].
        split; [reflexivity|]. split; [exact Hq|].
        now rewrite loop_len_cons, (body_newline st _ Hc Hq Ed).
      * destruct (ceq c DQ) eqn:Edq.
        -- apply ceq_true in Edq. subst c.
           destruct (seq_eq (field st) []) eqn:Ef.
           ++ destruct (scanLine o true false t) as [l' r'] eqn:Esc.
              unfold consLine in Hscan; cbn [fst snd] in Hscan.
              injection Hscan as <- <-.
              eapply lineRun_step.
              ** apply (body_first_quote st t Hc Hq Ed Ef).
              ** apply (body_first_quote st l' Hc Hq Ed Ef).
              ** reflexivity.
              ** auto with csv.
              ** apply IH'; [reflexivity|]. simpl. rewrite seq_eq_snoc. exact Esc.
           ++ destruct (scanLine o false false t) as [l' r'] eqn:Esc.
              unfold consLine in Hscan; cbn [fst snd] in Hscan.
              injection Hscan as <- <-.
              eapply lineRun_step.
              ** apply (body_stray_quote st t Hc Hq Ed Ef).
              ** apply (body_stray_quote st l' Hc Hq Ed Ef).
              ** reflexivity.
              ** auto with csv.
              ** apply IH'; [reflexivity|]. simpl. rewrite Hq. rewrite seq_eq_snoc. exact Esc.
        -- destruct (scanLine o false false t) as [l' r'] eqn:Esc.
           unfold consLine in Hscan; cbn [fst snd] in Hscan.
           injection Hscan as <- <-.
           eapply lineRun_step.
           ++ apply (body_unquoted_char st c t Hc Hq Ed El Hcn Edq).
           ++ apply (body_unquoted_char st c l' Hc Hq Ed El Hcn Edq).
           ++ reflexivity.
           ++ auto with csv.
           ++ apply IH'; [reflexivity|]. simpl. rewrite Hq. rewrite seq_eq_snoc. exact Esc.
Qed.

Lemma body_lineStart (st : state) (c : N) (t : jsstring) :
  inQuotes st = false ->
  seq_eq [c] (commentChar o) = false ->
  body o st c t = body o (setLineStart false st) c t.
Proof.
  intros Hq Hc. unfold body.
  change (inQuotes (setLineStart false st)) with (inQuotes st).
  change (field (setLineStart false st)) with (field st).
  change (lineStart (setLineStart false st)) with false.
  rewrite Hc, Hq, !andb_false_r. cbn [andb negb].
  destruct_tests; try reflexivity.
  all: unfold setLineStart, pushRow, pushField;
    cbn [rows row field inQuotes lineStart];
    destruct_tests; reflexivity.
Qed.

(** The row of a line read from a line start is the row of the line read
    on its own. *)
Lemma fieldsOf_start (rs : list (list jsstring)) (l : jsstring)
  (st_l : state) :
  commentStart o l = false ->
  loop o (length l) (startState rs) l = Some st_l ->
  row (pushField o st_l) = fieldsOf o l.
Proof.
  intros Hc Hloop. unfold fieldsOf.
  destruct l as [|c t].
  - simpl in Hloop. inversion Hloop; subst. reflexivity.
  - simpl in Hc. rewrite loop_len_cons in Hloop |- *.
    rewrite (body_lineStart (startState rs) c t eq_refl Hc) in Hloop.
    replace (setLineStart false (startState rs))
      with (addRows rs (mkState [] [] [] false false)) in Hloop
      by (unfold addRows, startState, setLineStart; simpl; now rewrite app_nil_r).
    rewrite body_addRows in Hloop.
    destruct (body o (mkState [] [] [] false false) c t) as [[st1 r1] k1].
    rewrite loop_addRows in Hloop.
    destruct (loop o (length r1) st1 r1) as [st0|]; [|discriminate].
    simpl in Hloop. inversion Hloop; subst. reflexivity.
Qed.

Lemma dataRows_cons (l : jsstring) (ls : list jsstring) :
  dataRows o (l :: ls) = dataRows o [l] ++ dataRows o ls.
Proof.
  unfold dataRows. simpl. destruct (isKind DataLine o l); reflexivity.
Qed.

Lemma dataRows_one (l : jsstring) :
  commentStart o l = false ->
  dataRows o [l] =
  if blankRow (fieldsOf o l) then []
  else if commentRow o (fieldsOf o l) then []
  else [fieldsOf o l].
Proof.
  intros Hc. unfold dataRows, isKind, classify. simpl. rewrite Hc.
  destruct (blankRow (fieldsOf o l)); [reflexivity|].
  destruct (commentRow o (fieldsOf o l)); reflexivity.
Qed.

Lemma dataRows_comment (l : jsstring) :
  commentStart o l = true -> dataRows o [l] = [].
Proof.
  intros Hc. unfold dataRows, isKind, classify. simpl. now rewrite Hc.
Qed.

Lemma dataRows_empty : dataRows o [[]] = [].
Proof.
  rewrite dataRows_one by reflexivity.
  unfold fieldsOf. simpl. unfold finalizeField. simpl.
  destruct (trimEnabled o); reflexivity.
Qed.

(** The rows after the row of a line is pushed. *)
Lemma pushRow_line (st_l : state) (l : jsstring) :
  commentStart o l = false ->
  row (pushField o st_l) = fieldsOf o l ->
  rows (pushRow o (pushField o st_l)) = rows st_l ++ dataRows o [l].
Proof.
  intros Hc Hrow. rewrite (dataRows_one l Hc). unfold pushRow. rewrite Hrow.
  destruct (blankRow (fieldsOf o l)); [simpl; now rewrite app_nil_r|].
  destruct (commentRow o (fieldsOf o l)); [simpl; now rewrite app_nil_r|].
  reflexivity.
Qed.

Lemma endLine_state (st_l : state) (l : jsstring) :
  commentStart o l = false ->
  inQuotes st_l = false ->
  row (pushField o st_l) = fieldsOf o l ->
  setLineStart true (pushRow o (pushField o st_l))
  = startState (rows st_l ++ dataRows o [l]).
Proof.
  intros Hc Hq Hrow. unfold setLineStart, startState.
  rewrite (pushRow_line st_l l Hc Hrow).
  destruct (pushRow_fields o (pushField o st_l)) as (-> & -> & ->).
  simpl. now rewrite Hq.
Qed.

Lemma breakLine_skip (d : jsstring) :
  match breakLine d with
  | (l, Some rest) => d = l ++ LF :: rest /\ fst (skipToNewline d) = LF :: rest
  | (l, None) => d = l /\ fst (skipToNewline d) = []
  end.
Proof.
  induction d as [|c t IH]; simpl; [auto|].
  destruct (ceq c LF) eqn:E.
  - apply ceq_true in E. subst. auto.
  - destruct (breakLine t) as [l [rest|]]; destruct (skipToNewline t) as [r k];
      simpl in *; destruct IH as [-> ->]; auto.
Qed.

Lemma finish_start (rs : list (list jsstring)) :
  finish o (startState rs) = startState rs.
Proof. reflexivity. Qed.

Lemma finish_nonEmpty (st : state) :
  nonEmpty st -> finish o st = pushRow o (pushField o st).
Proof.
  intros [H | H]; unfold finish.
  - destruct (row st); [congruence|]. simpl. now rewrite orb_true_r.
  - destruct (field st); [congruence|]. reflexivity.
Qed.

(** The rows of the state machine are the rows of the data lines. *)
Lemma loop_lines (n : nat) :
  forall (d : jsstring) (rs : list (list jsstring)),
    length d <= n ->
    Forall (fun c => c <> NUL) d ->
    exists st' : state,
      loop o (length d) (startState rs) d = Some st' /\
      rows (finish o st') = rs ++ dataRows o (linesFrom o n d).
Proof.
  induction n as [|n IH]; intros d rs Hlen Hnul.
  { destruct d; simpl in Hlen; [|lia]. exists (startState rs).
    split; [reflexivity|]. simpl. now rewrite app_nil_r. }
  destruct d as [|c t].
  { exists (startState rs). split; [reflexivity|]. simpl. now rewrite app_nil_r. }
  simpl in Hlen.
  change (linesFrom o (S n) (c :: t))
    with (match firstLine o (c :: t) with
          | (l, None) => [l]
          | (l, Some r) => l :: linesFrom o n r
          end).
  unfold firstLine.
  destruct (commentStart o (c :: t)) eqn:Hc.
  - (* a line that starts with the comment character *)
    rewrite loop_len_cons, (body_comment o (startState rs) c t eq_refl Hc).
    pose proof (breakLine_skip (c :: t)) as Hb.
    destruct (skipToNewline (c :: t)) as [r k].
    destruct (breakLine (c :: t)) as [l [rest|]]; simpl in Hb; destruct Hb as [Hd ->].
    + assert (Hl : dataRows o [l] = []).
      { destruct l as [|c' l'].
        - apply dataRows_empty.
        - apply dataRows_comment. simpl in Hd. inversion Hd; subst. exact Hc. }
      destruct (IH rest rs) as (st' & H1 & H2).
      * apply (f_equal (@length N)) in Hd. rewrite length_app in Hd.
        simpl in Hd. lia.
      * rewrite Hd in Hnul. apply Forall_app in Hnul as [_ Hnul].
        now inversion Hnul.
      * exists st'. split; [exact H1|].
        rewrite dataRows_cons, Hl. exact H2.
    + exists (startState rs). split; [reflexivity|].
      rewrite dataRows_comment by (subst l; exact Hc).
      simpl. now rewrite app_nil_r.
  - (* another line *)
    destruct (scanLine o false true (c :: t)) as [l ro] eqn:Hscan.
    destruct (scanLine_run (S n) (c :: t) (startState rs) l ro)
      as (st_l & Hl & Hrows & Hne & Hr);
      [simpl; lia | exact Hnul | exact Hc | discriminate | exact Hscan |].
    assert (Hcl : commentStart o l = false).
    { destruct l as [|c' l']; [reflexivity|].
      destruct ro as [rest|].
      - destruct Hr as (Hd & _). inversion Hd; subst. exact Hc.
      - inversion Hr; subst. exact Hc. }
    pose proof (fieldsOf_start rs l st_l Hcl Hl) as Hrow.
    simpl in Hrows.
    destruct ro as [rest|].
    + destruct Hr as (Hd & Hq & Hloop).
      rewrite (endLine_state st_l l Hcl Hq Hrow), Hrows in Hloop.
      destruct (IH rest (rs ++ dataRows o [l])) as (st' & H1 & H2).
      * apply (f_equal (@length N)) in Hd. rewrite length_app in Hd.
        simpl in Hd. lia.
      * rewrite Hd in Hnul. apply Forall_app in Hnul as [_ Hnul].
        now inversion Hnul.
      * exists st'. split; [now rewrite Hloop|].
        rewrite dataRows_cons, app_assoc. exact H2.
    + subst l. exists st_l. split; [exact Hl|].
      rewrite finish_nonEmpty by (apply Hne; left; discriminate).
      rewrite (pushRow_line st_l (c :: t) Hcl Hrow), Hrows. reflexivity.
Qed.

End LineByLine.

Lemma replaceCRLF_Forall (P : N -> Prop) (s : jsstring) :
  P LF -> Forall P s -> Forall P (replaceCRLF s).
Proof.
  intros HLF.
  assert (H : forall n (s : jsstring),
             length s <= n -> Forall P s -> Forall P (replaceCRLF s)).
  { clear s. induction n as [|n IH]; intros s Hlen Hs.
    - destruct s; [constructor | simpl in Hlen; lia].
    - destruct s as [|a [|b u]]; try exact Hs.
      rewrite replaceCRLF_eq. inversion Hs as [|? ? Ha Ht]; subst.
      inversion Ht as [|? ? Hb Hu]; subst. simpl in Hlen.
      destruct (ceq a CR && ceq b LF).
      + constructor; [exact HLF|]. apply IH; [lia | exact Hu].
      + constructor; [exact Ha|]. apply IH; [simpl; lia | exact Ht]. }
  apply (H (length s)). lia.
Qed.

Lemma prepare_Forall (P : N -> Prop) (data : jsstring) :
  P LF -> Forall P data -> Forall P (prepare data).
Proof.
  intros HLF H. unfold prepare, normalize, replaceCR.
  apply Forall_map.
  eapply Forall_impl; [apply replaceCRLF_Forall, stripBOM_Forall, H; exact HLF|].
  intros c Hc. simpl. destruct (ceq c CR); auto.
Qed.

Lemma countKind_total (o : options) (ls : list jsstring) :
  length (dataRows o ls) + countKind CommentLine o ls + countKind BlankLine o ls
  = length ls.
Proof.
  unfold dataRows, countKind, isKind. rewrite length_map.
  induction ls as [|l ls IH]; [reflexivity|].
  simpl. destruct (classify o l); simpl; lia.
Qed.

(** C4, as stated, fails on an input with a NUL character: the state
    machine ends a row at a NUL that is not in a quoted field, so one
    logical line, neither comment nor blank, gives two rows. *)
Lemma rowCountClaim_counterexample :
  tokenize noHeader (str "a" ++ [NUL] ++ str "b") = Some [[str "a"]; [str "b"]] /\
  logicalLines noHeader (prepare (str "a" ++ [NUL] ++ str "b"))
    = [str "a" ++ [NUL] ++ str "b"] /\
  countKind CommentLine noHeader
    (logicalLines noHeader (prepare (str "a" ++ [NUL] ++ str "b"))) = 0 /\
  countKind BlankLine noHeader
    (logicalLines noHeader (prepare (str "a" ++ [NUL] ++ str "b"))) = 0 /\
  ~ rowCountClaim noHeader (str "a" ++ [NUL] ++ str "b").
Proof.
  repeat split; try (vm_compute; reflexivity).
  intros (rs & H1 & H2). vm_compute in H1. inversion H1; subst.
  vm_compute in H2. discriminate.
Qed.

(** C4, amended: for every input without NUL character, the rows of
    [tokenize] are the rows of the logical lines of the normalised input
    that are neither comment lines nor blank lines, in order and one row
    per line; their number is the number of logical lines minus the
    number of comment lines and the number of blank lines. *)
Theorem rows_per_logical_line (o : options) (data : jsstring) :
  Forall (fun c => c <> NUL) data ->
  tokenize o data = Some (dataRows o (logicalLines o (prepare data))) /\
  rowCountClaim o data.
Proof.
  intros Hnul.
  assert (Hp : Forall (fun c => c <> NUL) (prepare data))
    by (apply prepare_Forall; [discriminate | exact Hnul]).
  destruct (loop_lines o (length (prepare data)) (prepare data) [] (le_n _) Hp)
    as (st' & H1 & H2).
  assert (Htok : tokenize o data
                 = Some (dataRows o (logicalLines o (prepare data)))).
  { rewrite (tokenize_rows o data st' H1). now rewrite H2. }
  split; [exact Htok|].
  exists (dataRows o (logicalLines o (prepare data))). split; [exact Htok|].
  pose proof (countKind_total o (logicalLines o (prepare data))). lia.
Qed.

Lemma rows_per_logical_line_witness :
  tokenize noHeader (lit "a,'x" ++ [LF] ++ lit "y'" ++ [LF; LF] ++ lit "#c" ++ [LF] ++ lit "b")
  = Some [[str "a"; str "x" ++ [LF] ++ str "y"]; [str "b"]].
Proof.
  destruct (rows_per_logical_line noHeader
    (lit "a,'x" ++ [LF] ++ lit "y'" ++ [LF; LF] ++ lit "#c" ++ [LF] ++ lit "b"))
    as [H _].
  - repeat constructor; discriminate.
  - rewrite H. vm_compute. reflexivity.
Defined.

(** ** The lines of [splitCSVLines] *)

Lemma pushLine_keep (lines : list jsstring) (cur : jsstring) :
  pushLine lines cur = lines ++ keepLine cur.
Proof.
  unfold pushLine, keepLine. destruct (seq_eq (trim cur) []).
  - now rewrite app_nil_r.
  - reflexivity.
Qed.

Lemma splitLoop_cons (c : N) (t cur : jsstring) (inQ : bool) (lines : list jsstring) :
  splitLoop (c :: t) cur inQ lines =
  if ceq c DQ then
    match t with
    | c2 :: t2 =>
        if inQ && ceq c2 DQ then splitLoop t2 (cur ++ [DQ]) inQ lines
        else splitLoop t (cur ++ [DQ]) (negb inQ) lines
    | [] => splitLoop t (cur ++ [DQ]) (negb inQ) lines
    end
  else if (ceq c LF || ceq c CR) && negb inQ then
    match t with
    | c2 :: t2 =>
        if ceq c CR && ceq c2 LF then splitLoop t2 [] inQ (pushLine lines cur)
        else splitLoop t [] inQ (pushLine lines cur)
    | [] => splitLoop t [] inQ (pushLine lines cur)
    end
  else splitLoop t (cur ++ [c]) inQ lines.
Proof. reflexivity. Qed.

(** The lines pushed so far stay first. *)
Lemma splitLoop_lines (n : nat) :
  forall (d cur : jsstring) (inQ : bool) (lines : list jsstring),
    length d <= n ->
    splitLoop d cur inQ lines = lines ++ splitLoop d cur inQ [].
Proof.
  induction n as [|n IH]; intros d cur inQ lines Hlen.
  { destruct d; simpl in Hlen; [|lia]. simpl. apply pushLine_keep. }
  destruct d as [|c t]; [simpl; apply pushLine_keep|].
  simpl in Hlen. rewrite !splitLoop_cons.
  assert (IHt : forall cur' q' ls, splitLoop t cur' q' ls = ls ++ splitLoop t cur' q' [])
    by (intros; apply IH; lia).
  destruct (ceq c DQ).
  - destruct t as [|c2 t2]; [apply IHt|].
    destruct (inQ && ceq c2 DQ); [|apply IHt].
    apply IH. simpl in Hlen. lia.
  - destruct ((ceq c LF || ceq c CR) && negb inQ); [|apply IHt].
    rewrite (pushLine_keep lines), (pushLine_keep []). simpl.
    destruct t as [|c2 t2].
    + rewrite IHt, (IHt _ _ (keepLine cur)). now rewrite app_assoc.
    + destruct (ceq c CR && ceq c2 LF).
      * rewrite (IH t2), (IH t2 _ _ (keepLine cur)) by (simpl in Hlen; lia).
        now rewrite app_assoc.
      * rewrite IHt, (IHt _ _ (keepLine cur)). now rewrite app_assoc.
Qed.

(** A piece without line end outside quotes goes to the current line. *)
Lemma splitLoop_text (n : nat) :
  forall (l x cur txt : jsstring) (inQ q' : bool) (lines : list jsstring),
    length l <= n ->
    lineText inQ l = Some (txt, q') ->
    head x <> Some DQ ->
    splitLoop (l ++ x) cur inQ lines = splitLoop x (cur ++ txt) q' lines.
Proof.
  induction n as [|n IH]; intros l x cur txt inQ q' lines Hlen Htxt Hx.
  { destruct l; simpl in Hlen; [|lia]. inversion Htxt; subst.
    simpl. now rewrite app_nil_r. }
  destruct l as [|c t].
  { inversion Htxt; subst. simpl. now rewrite app_nil_r. }
  simpl in Hlen. simpl in Htxt.
  change ((c :: t) ++ x) with (c :: t ++ x). rewrite splitLoop_cons.
  destruct (ceq c DQ) eqn:Edq.
  - destruct t as [|c2 t2].
    + inversion Htxt; subst. simpl.
      destruct x as [|c2 t2]; [reflexivity|].
      destruct (ceq c2 DQ) eqn:E2.
      * apply ceq_true in E2. subst. now elim Hx.
      * now rewrite andb_false_r.
    + change ((c2 :: t2) ++ x) with (c2 :: t2 ++ x). cbv beta iota.
      destruct (inQ && ceq c2 DQ).
      * destruct (lineText inQ t2) as [[txt' q'']|] eqn:E; [|discriminate].
        inversion Htxt; subst.
        rewrite (IH t2 x (cur ++ [DQ]) txt' inQ q' lines
                   ltac:(simpl in Hlen; lia) E Hx).
        now rewrite <- app_assoc.
      * destruct (lineText (negb inQ) (c2 :: t2)) as [[txt' q'']|] eqn:E; [|discriminate].
        inversion Htxt; subst.
        change (c2 :: t2 ++ x) with ((c2 :: t2) ++ x).
        rewrite (IH (c2 :: t2) x (cur ++ [DQ]) txt' (negb inQ) q' lines
                   ltac:(lia) E Hx).
        now rewrite <- app_assoc.
  - destruct ((ceq c LF || ceq c CR) && negb inQ); [discriminate|].
    destruct (lineText inQ t) as [[txt' q'']|] eqn:E; [|discriminate].
    inversion Htxt; subst.
    rewrite (IH t x (cur ++ [c]) txt' inQ q' lines ltac:(lia) E Hx).
    now rewrite <- app_assoc.
Qed.

Lemma splitLoop_LF (rest cur : jsstring) (lines : list jsstring) :
  splitLoop (LF :: rest) cur false lines = splitLoop rest [] false (pushLine lines cur).
Proof. rewrite splitLoop_cons. simpl. now destruct rest. Qed.

Lemma splitLoop_CRLF (rest cur : jsstring) (lines : list jsstring) :
  splitLoop (CR :: LF :: rest) cur false lines
  = splitLoop rest [] false (pushLine lines cur).
Proof. reflexivity. Qed.

Lemma splitLoop_CR (rest cur : jsstring) (lines : list jsstring) :
  head rest <> Some LF ->
  splitLoop (CR :: rest) cur false lines = splitLoop rest [] false (pushLine lines cur).
Proof.
  intros H. rewrite splitLoop_cons. simpl.
  destruct rest as [|c2 t2]; [reflexivity|].
  destruct (ceq c2 LF) eqn:E; [|reflexivity].
  apply ceq_true in E. subst. now elim H.
Qed.

Lemma splitLoop_quoted_newline (c : N) (rest cur : jsstring) (lines : list jsstring) :
  c = LF \/ c = CR ->
  splitLoop (c :: rest) cur true lines = splitLoop rest (cur ++ [c]) true lines.
Proof. intros [-> | ->]; rewrite splitLoop_cons; reflexivity. Qed.

Lemma splitLoop_start (d cur : jsstring) (lines : list jsstring) :
  splitLoop d [] false (pushLine lines cur)
  = lines ++ keepLine cur ++ splitCSVLines d.
Proof.
  rewrite (splitLoop_lines (length d)) by lia.
  now rewrite pushLine_keep, <- app_assoc.
Qed.

Lemma lineText_cons (inQ : bool) (c : N) (t : jsstring) :
  lineText inQ (c :: t) =
  if ceq c DQ then
    match t with
    | c2 :: t2 =>
        if inQ && ceq c2 DQ then consText DQ (lineText inQ t2)
        else consText DQ (lineText (negb inQ) t)
    | [] => Some ([DQ], negb inQ)
    end
  else if (ceq c LF || ceq c CR) && negb inQ then None
  else consText c (lineText inQ t).
Proof. reflexivity. Qed.

(** A text that holds a line end outside quotes starts with a piece that
    holds none, followed by a newline or a carriage return. *)
Lemma lineText_split (n : nat) :
  forall (d : jsstring) (inQ : bool),
    length d <= n ->
    lineText inQ d = None ->
    exists (l txt : jsstring) (c : N) (rest : jsstring),
      d = l ++ c :: rest /\ (c = LF \/ c = CR) /\
      lineText inQ l = Some (txt, false).
Proof.
  induction n as [|n IH]; intros d inQ Hlen Hd.
  { destruct d; [discriminate | simpl in Hlen; lia]. }
  destruct d as [|c t]; [discriminate|].
  simpl in Hlen. rewrite lineText_cons in Hd.
  destruct (ceq c DQ) eqn:Edq.
  - apply ceq_true in Edq. subst c.
    destruct t as [|c2 t2]; [discriminate|].
    destruct (inQ && ceq c2 DQ) eqn:E2.
    + destruct (lineText inQ t2) as [[txt' q']|] eqn:E; [discriminate|].
      destruct (IH t2 inQ ltac:(simpl in Hlen; lia) E)
        as (l' & txt' & c' & rest & -> & Hc' & Hl').
      exists (DQ :: c2 :: l'), (DQ :: txt'), c', rest.
      split; [reflexivity|]. split; [exact Hc'|].
      rewrite lineText_cons. simpl ceq. cbv iota. now rewrite E2, Hl'.
    + destruct (lineText (negb inQ) (c2 :: t2)) as [[txt' q']|] eqn:E; [discriminate|].
      destruct (IH (c2 :: t2) (negb inQ) ltac:(lia) E)
        as (l' & txt' & c' & rest & Heq & Hc' & Hl').
      exists (DQ :: l'), (DQ :: txt'), c', rest.
      split; [simpl; now rewrite Heq|]. split; [exact Hc'|].
      rewrite lineText_cons. simpl ceq. cbv iota.
      destruct l' as [|c3 l3].
      * simpl in Hl'. inversion Hl'; subst. congruence.
      * simpl in Heq. inversion Heq; subst. now rewrite E2, Hl'.
  - destruct ((ceq c LF || ceq c CR) && negb inQ) eqn:Et.
    + apply andb_true_iff in Et as [Et Eq].
      apply negb_true_iff in Eq. subst inQ.
      exists [], [], c, t. split; [reflexivity|]. split; [|reflexivity].
      apply orb_true_iff in Et as [Et | Et]; apply ceq_true in Et; auto.
    + destruct (lineText inQ t) as [[txt' q']|] eqn:E; [discriminate|].
      destruct (IH t inQ ltac:(lia) E) as (l' & txt' & c' & rest & -> & Hc' & Hl').
      exists (c :: l'), (c :: txt'), c', rest.
      split; [reflexivity|]. split; [exact Hc'|].
      now rewrite lineText_cons, Edq, Et, Hl'.
Qed.

(** C8: a piece [l] of the input that holds no newline or carriage return
    outside quotes is one line of [splitCSVLines], with the newlines it
    holds inside quotes: alone, it gives its text, unless the text is
    blank; followed by a newline, by a carriage return and a newline, or
    by a carriage return and no newline, all outside quotes, it gives its
    text, unless blank, and then the lines of the rest; and when it ends
    inside a quoted region, a newline or carriage return that follows goes
    to the current line and ends no line.  Every input is such a piece, or
    starts with such a piece that ends outside quotes and is followed by a
    newline or a carriage return. *)
Theorem splitCSVLines_lines (l txt rest : jsstring) (q : bool) :
  lineText false l = Some (txt, q) ->
  splitCSVLines l = keepLine txt /\
  keepLine txt = (if seq_eq (trim txt) [] then [] else [txt]) /\
  (q = false ->
   splitCSVLines (l ++ LF :: rest) = keepLine txt ++ splitCSVLines rest /\
   splitCSVLines (l ++ CR :: LF :: rest) = keepLine txt ++ splitCSVLines rest /\
   (head rest <> Some LF ->
    splitCSVLines (l ++ CR :: rest) = keepLine txt ++ splitCSVLines rest)) /\
  (q = true ->
   forall c : N, c = LF \/ c = CR ->
     splitCSVLines (l ++ c :: rest) = splitLoop rest (txt ++ [c]) true []) /\
  (forall d : jsstring,
      lineText false d = None ->
      exists (l' txt' : jsstring) (c : N) (rest' : jsstring),
        d = l' ++ c :: rest' /\ (c = LF \/ c = CR) /\
        lineText false l' = Some (txt', false)).
Proof.
  intros Htxt. unfold splitCSVLines.
  assert (Hrun : forall x, head x <> Some DQ ->
                   splitLoop (l ++ x) [] false [] = splitLoop x txt q [])
    by (intros x Hx; apply (splitLoop_text (length l) l x [] txt false q []); auto).
  split; [|split; [reflexivity|split; [|split]]].
  - rewrite <- (app_nil_r l), Hrun by discriminate. simpl. apply pushLine_keep.
  - intros ->. split; [|split].
    + rewrite Hrun by discriminate. rewrite splitLoop_LF.
      apply (splitLoop_start rest txt []).
    + rewrite Hrun by discriminate. rewrite splitLoop_CRLF.
      apply (splitLoop_start rest txt []).
    + intros Hrest. rewrite Hrun by discriminate. rewrite (splitLoop_CR _ _ _ Hrest).
      apply (splitLoop_start rest txt []).
  - intros -> c Hc. rewrite Hrun by (destruct Hc as [-> | ->]; discriminate).
    now apply splitLoop_quoted_newline.
  - intros d Hd. apply (lineText_split (length d) d false (le_n _) Hd).
Qed.

Lemma splitCSVLines_lines_witness :
  splitCSVLines (lit "a,'x" ++ [LF] ++ lit "y'" ++ CR :: LF :: (str "  " ++ [CR] ++ str "b"))
  = [lit "a,'x" ++ [LF] ++ lit "y'"; str "b"].
Proof.
  destruct (splitCSVLines_lines (lit "a,'x" ++ [LF] ++ lit "y'")
              (lit "a,'x" ++ [LF] ++ lit "y'") (str "  " ++ [CR] ++ str "b") false)
    as (_ & _ & H & _); [reflexivity|].
  destruct (H eq_refl) as (_ & H2 & _).
  rewrite <- app_assoc in H2. simpl in H2. simpl. rewrite H2. reflexivity.
Defined.

(** ** An input of more rows than the engine accepts arguments *)

Lemma manyRows_length (n : nat) : length (manyRows n) = 2 * n.
Proof. induction n as [|n IH]; simpl; lia. Qed.

Lemma manyRows_noCR (n : nat) : Forall (fun c => c <> CR) (manyRows n).
Proof.
  induction n as [|n IH]; simpl; [constructor|].
  constructor; [discriminate|]. constructor; [discriminate | exact IH].
Qed.

Lemma loop_manyRows (h : option bool) (n : nat) :
  forall (fuel : nat) (rs : list (list jsstring)),
    2 * n <= fuel ->
    loop (mkOptions None None h None) fuel (startState rs) (manyRows n)
    = Some (startState (rs ++ repeat [str "a"] n)).
Proof.
  induction n as [|n IH]; intros fuel rs Hf.
  - simpl. rewrite app_nil_r. now destruct fuel.
  - destruct fuel as [|[|fuel]]; [lia | lia |].
    change (manyRows (S n)) with (97%N :: LF :: manyRows n).
    rewrite !loop_cons.
    change (body (mkOptions None None h None) (startState rs) 97%N
              (LF :: manyRows n))
      with (mkState rs [] (str "a") false false, LF :: manyRows n, 1).
    cbv beta iota. rewrite loop_cons.
    change (body (mkOptions None None h None)
              (mkState rs [] (str "a") false false) LF (manyRows n))
      with (startState (rs ++ [[str "a"]]), manyRows n, 1).
    cbv beta iota. rewrite IH by lia.
    now rewrite <- app_assoc.
Qed.

Lemma tokenize_manyRows (h : option bool) (n : nat) :
  tokenize (mkOptions None None h None) (manyRows n) = Some (repeat [str "a"] n).
Proof.
  assert (Hp : prepare (manyRows n) = manyRows n).
  { apply prepare_id; [now destruct n | apply manyRows_noCR]. }
  rewrite (tokenize_rows _ (manyRows n) (startState (repeat [str "a"] n))).
  - reflexivity.
  - rewrite Hp. apply (loop_manyRows h n _ []). rewrite manyRows_length. lia.
Qed.

(** C1, as stated, fails: [parseCSV] raises an exception on an input of
    more rows than the engine accepts arguments in one call, when the
    option [hasHeader] is false.  The input is the line [a] followed by a
    newline, once more than the engine accepts arguments: the state machine
    makes one row of every line, and [Math.max], called with one argument
    for every row, throws a [RangeError].  On the same input with a header
    row, where [Math.max] is not called, [parseCSV] returns one record for
    every row after the first. *)
Theorem parseCSV_raises_RangeError (e : engine) :
  tokenize noHeader (manyRows (S (Pos.to_nat (maxArguments e))))
  = Some (repeat [str "a"] (S (Pos.to_nat (maxArguments e)))) /\
  parseCSV e (manyRows (S (Pos.to_nat (maxArguments e)))) noHeader
  = Some RangeError /\
  exists recs : list (gmap jsstring jsstring),
    parseCSV e (manyRows (S (Pos.to_nat (maxArguments e)))) noOptions
    = Some (Returns recs) /\
    length recs = Pos.to_nat (maxArguments e).
Proof.
  split; [apply (tokenize_manyRows (Some false))|]. split.
  - unfold parseCSV, noHeader. rewrite tokenize_manyRows.
    cbn [option_map]. f_equal. apply buildRecords_RangeError; [reflexivity|].
    unfold accepts. apply N.leb_gt. rewrite repeat_length. lia.
  - unfold parseCSV, noOptions. rewrite tokenize_manyRows.
    cbn [option_map]. rewrite buildRecords_header by reflexivity.
    eexists. split; [reflexivity|].
    rewrite length_map, length_drop, repeat_length. lia.
Qed.

(** * Further properties *)

(** ** The rows that are kept *)

Lemma pushRow_kept (o : options) (st : state) :
  row st <> [] ->
  Forall (keptRow o) (rows st) ->
  Forall (keptRow o) (rows (pushRow o st)).
Proof.
  intros Hne H. unfold pushRow.
  destruct (blankRow (row st)) eqn:Eb; [exact H|].
  destruct (commentRow o (row st)) eqn:Ec; [exact H|].
  simpl. apply Forall_app. split; [exact H|].
  constructor; [|constructor]. repeat split; assumption.
Qed.

Lemma pushField_row (o : options) (st : state) : row (pushField o st) <> [].
Proof. simpl. now destruct (row st). Qed.

Lemma body_kept (o : options) (st st' : state) (c : N) (t r : jsstring) (k : nat) :
  Forall (keptRow o) (rows st) ->
  body o st c t = (st', r, k) ->
  Forall (keptRow o) (rows st').
Proof.
  intros H. unfold body. destruct (skipToNewline (c :: t)) as [r0 k0].
  destruct_tests; intros E; inversion E; subst; clear E; simpl; try exact H.
  all: apply pushRow_kept; [apply pushField_row | exact H].
Qed.

Lemma loop_kept (o : options) (fuel : nat) :
  forall (st st' : state) (rest : jsstring),
    Forall (keptRow o) (rows st) ->
    loop o fuel st rest = Some st' ->
    Forall (keptRow o) (rows st').
Proof.
  induction fuel as [|fuel IH]; intros st st' rest H E.
  - destruct rest; simpl in E; [|discriminate]. now inversion E; subst.
  - destruct rest as [|c t]; simpl in E; [now inversion E; subst|].
    destruct (body o st c t) as [[st1 r] k] eqn:Eb.
    eapply IH; [|exact E]. eapply body_kept; eauto.
Qed.

(** X1: every row that [tokenize] returns has at least one field, is not
    one single field that is empty or blank, and has no first field that
    starts, once trimmed, with the comment character; the loop that removes
    empty trailing rows never removes a row. *)
Theorem tokenize_rows_kept (o : options) (data : jsstring) :
  exists (st : state) (rs : list (list jsstring)),
    loop o (length (prepare data)) initState (prepare data) = Some st /\
    tokenize o data = Some rs /\
    Forall (keptRow o) rs /\
    removeTrailingEmpty (rows (finish o st)) = rows (finish o st).
Proof.
  destruct (loop_terminates o (length (prepare data)) initState (prepare data))
    as (st & n & H1 & _); [lia|].
  exists st, (rows (finish o st)).
  assert (Hk : Forall (keptRow o) (rows (finish o st))).
  { unfold finish.
    pose proof (loop_kept o _ initState _ _ (List.Forall_nil _) H1) as Hst.
    destruct ((0 <? length (field st)) || (0 <? length (row st))); [|exact Hst].
    apply pushRow_kept; [apply pushField_row | exact Hst]. }
  assert (Hid : removeTrailingEmpty (rows (finish o st)) = rows (finish o st)).
  { apply removeTrailingEmpty_id. eapply Forall_impl; [exact Hk|].
    intros r (_ & Hb & _). exact Hb. }
  split; [exact H1|]. split; [|split; assumption].
  unfold tokenize. now rewrite H1, Hid.
Qed.

(** ** The keys of the records *)

Lemma setProp_dom (obj : gmap jsstring jsstring) (k v h : jsstring) :
  h ∈ dom (setProp obj k v) <-> (h = k /\ k <> str "__proto__") \/ h ∈ dom obj.
Proof.
  unfold setProp. destruct (seq_eq k (str "__proto__")) eqn:E.
  - apply seq_eq_true in E. split; [auto|]. intros [[_ H] | H]; [contradiction | exact H].
  - assert (Hk : k <> str "__proto__")
      by (intros Hk; apply seq_eq_true in Hk; congruence).
    rewrite dom_insert_L, elem_of_union, elem_of_singleton. tauto.
Qed.

Lemma fillObject_dom (hs r : list jsstring) (h : jsstring) :
  forall (j : nat) (obj : gmap jsstring jsstring),
    h ∈ dom (fillObject hs r j obj) <->
    (h ∈ hs /\ h <> str "__proto__") \/ h ∈ dom obj.
Proof.
  induction hs as [|h0 hs IH]; intros j obj; simpl.
  - rewrite elem_of_nil. tauto.
  - rewrite IH, setProp_dom, elem_of_cons.
    split; intros; intuition (subst; auto).
Qed.

Lemma buildObject_dom (hs r : list jsstring) (h : jsstring) :
  h ∈ dom (buildObject hs r) <-> h ∈ hs /\ h <> str "__proto__".
Proof.
  unfold buildObject. rewrite fillObject_dom, dom_empty_L, elem_of_empty. tauto.
Qed.

Lemma buildObject_same_dom (hs r r' : list jsstring) :
  dom (buildObject hs r) = dom (buildObject hs r').
Proof.
  apply set_eq. intros h. now rewrite !buildObject_dom.
Qed.

(** X2: the property names of the records.  The rows of the input being
    [rs], [parseCSV] throws a [RangeError] when [hasHeader] is false and
    there are more rows than the engine accepts arguments; otherwise it
    returns records whose property names are exactly the header names, but
    for [__proto__]: the fields of the first row when [hasHeader] is not
    false, and else the generated names [field1] to [fieldN], [N] being the
    length of the longest row.  So a short row and a long row give records
    with the same names. *)
Theorem parseCSV_same_keys (e : engine) (data : jsstring) (o : options) :
  exists rs : list (list jsstring),
    tokenize o data = Some rs /\
    if hasHeader o || accepts e (length rs) then
      exists recs : list (gmap jsstring jsstring),
        parseCSV e data o = Some (Returns recs) /\
        Forall (hasKeys (headerNames o rs)) recs /\
        (forall m1 m2 : gmap jsstring jsstring,
            m1 ∈ recs -> m2 ∈ recs -> dom m1 = dom m2)
    else parseCSV e data o = Some RangeError.
Proof.
  destruct (loop_terminates o (length (prepare data)) initState (prepare data))
    as (st & n & Hloop & _); [lia|].
  pose proof (tokenize_rows o data st Hloop) as Htok.
  remember (rows (finish o st)) as rs eqn:Ers. clear Ers.
  exists rs. split; [exact Htok|].
  unfold parseCSV. rewrite Htok. cbn [option_map].
  assert (H : forall hs' rs',
             Forall (hasKeys hs') (map (buildObject hs') rs')).
  { intros hs' rs'. apply Forall_map. apply Forall_forall.
    intros r _ h. apply buildObject_dom. }
  assert (Hsame : forall (hs' : list jsstring) (recs : list (gmap jsstring jsstring)),
             Forall (hasKeys hs') recs ->
             forall m1 m2 : gmap jsstring jsstring,
               m1 ∈ recs -> m2 ∈ recs -> dom m1 = dom m2).
  { intros hs' recs Hk m1 m2 H1 H2. rewrite Forall_forall in Hk.
    apply set_eq. intros h. rewrite (Hk m1 H1 h), (Hk m2 H2 h). tauto. }
  unfold headerNames. destruct (hasHeader o) eqn:Hh; cbn [orb].
  - rewrite (buildRecords_header e o rs Hh).
    eexists. split; [reflexivity|]. split; [apply H|]. apply (Hsame _ _ (H _ _)).
  - destruct (accepts e (length rs)) eqn:Ha.
    + rewrite (buildRecords_generic e o rs Hh Ha).
      eexists. split; [reflexivity|]. split; [apply H|]. apply (Hsame _ _ (H _ _)).
    + now rewrite (buildRecords_RangeError e o rs Hh Ha).
Qed.

(** ** Records without header *)

Lemma uintDigits_inj (u v : Decimal.uint) : uintDigits u = uintDigits v -> u = v.
Proof.
  revert v. induction u; intros v H; destruct v; simpl in H;
    try discriminate; try reflexivity;
    injection H as H; f_equal; auto.
Qed.

Lemma numberToString_inj (n m : nat) :
  numberToString n = numberToString m -> n = m.
Proof.
  intros H%uintDigits_inj.
  rewrite <- (Unsigned.of_to n), <- (Unsigned.of_to m). now rewrite H.
Qed.

Lemma fieldName_inj (j k : nat) : fieldName j = fieldName k -> j = k.
Proof.
  unfold fieldName. intros H%app_inv_head%numberToString_inj. lia.
Qed.

Lemma fieldName_proto (j : nat) : fieldName j <> str "__proto__".
Proof. unfold fieldName. simpl. discriminate. Qed.

Lemma genericHeaders_eq (n : nat) :
  genericHeaders n = map fieldName (seq 0 n).
Proof. reflexivity. Qed.

Lemma lookup_map_seq (n j : nat) :
  j < n -> map fieldName (seq 0 n) !! j = Some (fieldName j).
Proof.
  intros H. change (map fieldName (seq 0 n)) with (fieldName <$> seq 0 n).
  rewrite list_lookup_fmap, lookup_seq_lt by exact H. reflexivity.
Qed.

Lemma fieldName_later (n j : nat) :
  fieldName j ∉ drop (S j) (map fieldName (seq 0 n)).
Proof.
  change (map fieldName (seq 0 n)) with (fieldName <$> seq 0 n).
  rewrite <- fmap_drop, drop_seq. intros H.
  apply list_elem_of_fmap in H as (k & Hk & Hin).
  apply fieldName_inj in Hk. subst k.
  apply elem_of_seq in Hin. lia.
Qed.

Lemma Math_max_ge (rs : list (list jsstring)) (r : list jsstring) :
  r ∈ rs -> length r <= Math_max (map (@length jsstring) rs).
Proof.
  unfold Math_max. induction rs as [|r0 rs IH]; intros H.
  - now apply elem_of_nil in H.
  - apply elem_of_cons in H as [-> | H]; simpl; [lia|].
    specialize (IH H). lia.
Qed.

(** X3: the records without header.  When [hasHeader] is false and the
    engine accepts one argument for every row, every row gives one record,
    in the order of the rows; the record of a row has, under the name
    [field] followed by [j + 1], the field of index [j] of the row, for
    every [j] below the length of the longest row, and the empty string
    where the row is shorter; no row is longer than that, so no field is
    dropped.  When there are more rows than the engine accepts arguments,
    a [RangeError] is thrown. *)
Theorem records_without_header (e : engine) (o : options)
  (rs : list (list jsstring)) (i : nat) (r : list jsstring) :
  hasHeader o = false ->
  rs !! i = Some r ->
  if accepts e (length rs) then
    exists recs : list (gmap jsstring jsstring),
      buildRecords e o rs = Returns recs /\
      length recs = length rs /\
      length r <= Math_max (map (@length jsstring) rs) /\
      exists m : gmap jsstring jsstring,
        recs !! i = Some m /\
        forall j : nat,
          j < Math_max (map (@length jsstring) rs) ->
          m !! fieldName j = Some (default [] (r !! j))
  else buildRecords e o rs = RangeError.
Proof.
  intros Hh Hi. destruct (accepts e (length rs)) eqn:Ha;
    [|exact (buildRecords_RangeError e o rs Hh Ha)].
  rewrite (buildRecords_generic e o rs Hh Ha).
  eexists. split; [reflexivity|].
  split; [apply length_map|].
  split; [apply Math_max_ge; eapply list_elem_of_lookup_2; eauto|].
  exists (buildObject (genericHeaders (Math_max (map (@length jsstring) rs))) r).
  split.
  { change (map ?f rs) with (f <$> rs) at 1. now rewrite list_lookup_fmap, Hi. }
  intros j Hj. unfold buildObject. rewrite genericHeaders_eq.
  apply (fillObject_lookup_last _ r (fieldName j) j 0 ∅).
  - now apply lookup_map_seq.
  - apply fieldName_later.
  - apply fieldName_proto.
Qed.

Lemma records_without_header_witness :
  exists recs : list (gmap jsstring jsstring),
    buildRecords engine64k noHeader [[str "a"]; [str "b"; str "c"]] = Returns recs /\
    length recs = 2 /\
    1 <= 2 /\
    exists m : gmap jsstring jsstring,
      recs !! 0 = Some m /\
      forall j : nat,
        j < 2 -> m !! fieldName j = Some (default [] ([str "a"] !! j)).
Proof.
  exact (records_without_header engine64k noHeader [[str "a"]; [str "b"; str "c"]]
           0 [str "a"] eq_refl eq_refl).
Defined.

(** ** More on [splitCSVLines] *)

Lemma pushLine_nonblank (lines : list jsstring) (cur : jsstring) :
  Forall (fun l => trim l <> []) lines ->
  Forall (fun l => trim l <> []) (pushLine lines cur).
Proof.
  intros H. unfold pushLine. destruct (seq_eq (trim cur) []) eqn:E; [exact H|].
  apply Forall_app. split; [exact H|]. constructor; [|constructor].
  now apply seq_eq_nil_false.
Qed.

Lemma splitLoop_nonblank (n : nat) :
  forall (d cur : jsstring) (inQ : bool) (lines : list jsstring),
    length d <= n ->
    Forall (fun l => trim l <> []) lines ->
    Forall (fun l => trim l <> []) (splitLoop d cur inQ lines).
Proof.
  induction n as [|n IH]; intros d cur inQ lines Hlen H.
  { destruct d; simpl in Hlen; [|lia]. now apply pushLine_nonblank. }
  destruct d as [|c t]; [now apply pushLine_nonblank|].
  simpl in Hlen. rewrite splitLoop_cons.
  destruct (ceq c DQ).
  - destruct t as [|c2 t2]; [apply IH; [simpl; lia | exact H]|].
    destruct (inQ && ceq c2 DQ); apply IH; simpl in *; try lia; exact H.
  - destruct ((ceq c LF || ceq c CR) && negb inQ).
    + destruct t as [|c2 t2];
        [apply IH; [simpl; lia | now apply pushLine_nonblank]|].
      destruct (ceq c CR && ceq c2 LF); apply IH; simpl in *; try lia;
        now apply pushLine_nonblank.
    + apply IH; [lia | exact H].
Qed.

(** X4: no line that [splitCSVLines] returns is empty or all white space,
    whatever the input. *)
Theorem splitCSVLines_nonblank (data : jsstring) :
  Forall (fun l => trim l <> []) (splitCSVLines data).
Proof.
  unfold splitCSVLines. apply (splitLoop_nonblank (length data)); [lia|].
  constructor.
Qed.

Lemma splitLoop_plain_char (c : N) (t cur : jsstring) (inQ : bool)
  (lines : list jsstring) :
  c <> DQ -> c <> LF -> c <> CR ->
  splitLoop (c :: t) cur inQ lines = splitLoop t (cur ++ [c]) inQ lines.
Proof.
  intros H1%ceq_false H2%ceq_false H3%ceq_false.
  now rewrite splitLoop_cons, H1, H2, H3.
Qed.

Lemma splitLoop_toCRLF (d : jsstring) :
  forall (cur : jsstring) (lines : list jsstring),
    Forall (fun c => c <> DQ /\ c <> CR) d ->
    splitLoop (toCRLF d) cur false lines = splitLoop d cur false lines.
Proof.
  induction d as [|c t IH]; intros cur lines H; [reflexivity|].
  inversion H as [|? ? [Hdq Hcr] Ht]; subst.
  change (toCRLF (c :: t))
    with ((if ceq c LF then [CR; LF] else [c]) ++ toCRLF t).
  destruct (ceq c LF) eqn:El.
  - apply ceq_true in El. subst c.
    change ([CR; LF] ++ toCRLF t) with (CR :: LF :: toCRLF t).
    rewrite splitLoop_CRLF, splitLoop_LF. now apply IH.
  - apply ceq_false in El. change ([c] ++ toCRLF t) with (c :: toCRLF t).
    rewrite !splitLoop_plain_char by assumption. now apply IH.
Qed.

Lemma splitLoop_toCR (d : jsstring) :
  forall (cur : jsstring) (lines : list jsstring),
    Forall (fun c => c <> DQ /\ c <> CR) d ->
    splitLoop (toCR d) cur false lines = splitLoop d cur false lines.
Proof.
  induction d as [|c t IH]; intros cur lines H; [reflexivity|].
  inversion H as [|? ? [Hdq Hcr] Ht]; subst.
  change (toCR (c :: t)) with ((if ceq c LF then CR else c) :: toCR t).
  destruct (ceq c LF) eqn:El.
  - apply ceq_true in El. subst c.
    rewrite splitLoop_CR, splitLoop_LF; [now apply IH|].
    destruct t as [|c' t']; [discriminate|]. simpl.
    destruct (ceq c' LF) eqn:E; [discriminate|].
    apply ceq_false in E. congruence.
  - apply ceq_false in El.
    rewrite !splitLoop_plain_char by assumption. now apply IH.
Qed.

(** X5: on a text without double quote and without carriage return,
    [splitCSVLines] returns the same lines when every newline is replaced
    by a carriage return and a newline, and when every newline is replaced
    by a carriage return. *)
Theorem splitCSVLines_line_endings (text : jsstring) :
  Forall (fun c => c <> DQ /\ c <> CR) text ->
  splitCSVLines (toCRLF text) = splitCSVLines text /\
  splitCSVLines (toCR text) = splitCSVLines text.
Proof.
  intros H. unfold splitCSVLines. split.
  - now apply splitLoop_toCRLF.
  - now apply splitLoop_toCR.
Qed.

Lemma splitCSVLines_line_endings_witness :
  splitCSVLines (str "a,b" ++ [CR; LF] ++ str "c" ++ [CR; LF])
  = splitCSVLines (str "a,b" ++ [LF] ++ str "c" ++ [LF]).
Proof.
  destruct (splitCSVLines_line_endings (str "a,b" ++ [LF] ++ str "c" ++ [LF]))
    as [H _].
  - repeat constructor; discriminate.
  - exact H.
Defined.

(** ** Well-formed tables are read back *)

Section RoundTrip.

(** The options of the call, and its delimiter. *)
Variable o : options.
Variable dl : N.
Hypothesis delimiter_dl : delimiter o = [dl].
Hypothesis dl_DQ : dl <> DQ.
Hypothesis dl_LF : dl <> LF.
Hypothesis dl_CR : dl <> CR.

Lemma delimiter_test (c : N) : seq_eq [c] (delimiter o) = ceq c dl.
Proof. rewrite delimiter_dl. simpl. apply andb_true_r. Qed.

Lemma loop_escaped (x rest : jsstring) :
  forall st : state,
    inQuotes st = true -> lineStart st = false ->
    loop o (length (escapeQuotes x ++ rest)) st (escapeQuotes x ++ rest) =
    loop o (length rest)
      (mkState (rows st) (row st) (field st ++ x) true false) rest.
Proof.
  induction x as [|c x IH]; intros st Hq Hs.
  - simpl. rewrite app_nil_r. destruct st; simpl in *. now subst.
  - simpl. destruct (ceq c DQ) eqn:E.
    + apply ceq_true in E. subst c.
      change ((DQ :: DQ :: escapeQuotes x) ++ rest)
        with (DQ :: DQ :: escapeQuotes x ++ rest).
      rewrite loop_len_cons, (body_escaped_quote o st _ Hq Hs).
      rewrite IH by reflexivity. simpl. now rewrite <- app_assoc.
    + apply ceq_false in E.
      change ((c :: escapeQuotes x) ++ rest) with (c :: escapeQuotes x ++ rest).
      rewrite loop_len_cons, (body_quoted_char o st c _ Hq Hs E).
      rewrite IH by reflexivity. simpl. now rewrite <- app_assoc.
Qed.

Lemma unescapeQuotes_noPair (x : jsstring) :
  noQuotePair x = true -> unescapeQuotes x = x.
Proof.
  induction x as [|a t IH]; [reflexivity|].
  destruct t as [|b u]; [reflexivity|].
  intros H. change (noQuotePair (a :: b :: u))
    with (negb (ceq a DQ && ceq b DQ) && noQuotePair (b :: u)) in H.
  apply andb_true_iff in H as [H1 H2]. apply negb_true_iff in H1.
  rewrite unescapeQuotes_eq, H1. f_equal. now apply IH.
Qed.

Lemma cellOk_value (c : cell) :
  cellOk o c = true -> finalizeField o false (cellBuffer c) = cellValue o c.
Proof.
  destruct c as [v | x]; simpl; intros H.
  - apply finalizeField_plain.
    apply forallb_Forall_true in H. eapply Forall_impl; [exact H|].
    intros a Ha. apply plainChar_spec in Ha. apply ceq_false. tauto.
  - apply andb_true_iff in H as [_ H].
    rewrite finalizeField_quoted. now apply unescapeQuotes_noPair.
Qed.

Lemma loop_cell (c : cell) (x : jsstring) (st : state) :
  cellOk o c = true ->
  inQuotes st = false -> field st = [] ->
  lineStart st && commentStart o (cellText c ++ x) = false ->
  head x <> Some DQ ->
  loop o (length (cellText c ++ x)) st (cellText c ++ x) =
  loop o (length x) (afterCell st c) x.
Proof.
  intros Hok Hq Hf Hc Hx. destruct c as [v | y]; simpl in Hok.
  - (* written as it is *)
    unfold afterCell. simpl cellText in *. simpl cellBuffer.
    revert st Hq Hf Hc. induction v as [|a v IH]; intros st Hq Hf Hc.
    + simpl. destruct st; simpl in *. now subst.
    + simpl in Hok. apply andb_true_iff in Hok as [Ha Hv].
      change ((a :: v) ++ x) with (a :: v ++ x).
      rewrite loop_len_cons, (body_plain o st a _ Hq Ha Hc).
      assert (E : forall (w : jsstring) (st1 : state),
                 forallb (plainChar o) w = true ->
                 inQuotes st1 = false -> lineStart st1 = false ->
                 loop o (length (w ++ x)) st1 (w ++ x) =
                 loop o (length x)
                   (mkState (rows st1) (row st1) (field st1 ++ w) false false) x).
      { clear. induction w as [|b w IHw]; intros st1 Hw Hq1 Hs1.
        - simpl. rewrite app_nil_r. destruct st1; simpl in *. now subst.
        - simpl in Hw. apply andb_true_iff in Hw as [Hb Hw].
          change ((b :: w) ++ x) with (b :: w ++ x).
          rewrite loop_len_cons, (body_plain o st1 b _ Hq1 Hb)
            by (now rewrite Hs1).
          rewrite IHw by auto. simpl. now rewrite <- app_assoc. }
      rewrite E by auto. simpl. now rewrite Hf.
  - (* between quotes *)
    unfold afterCell. simpl cellText in *. simpl cellBuffer.
    change ((DQ :: escapeQuotes y ++ [DQ]) ++ x)
      with (DQ :: (escapeQuotes y ++ [DQ]) ++ x) in *.
    rewrite <- app_assoc.
    change (commentStart o (DQ :: (escapeQuotes y ++ [DQ]) ++ x))
      with (seq_eq [DQ] (commentChar o)) in Hc.
    rewrite loop_len_cons, (body_first_quote o st _ Hc Hq).
    + rewrite loop_escaped by reflexivity. simpl rows; simpl row; simpl field.
      change ([DQ] ++ x) with (DQ :: x).
      rewrite loop_len_cons, body_close_quote by (try reflexivity; exact Hx).
      simpl. rewrite Hf. reflexivity.
    + rewrite delimiter_test. apply ceq_false. congruence.
    + now rewrite Hf.
Qed.

Lemma loop_row (cs : list cell) :
  forall (x : jsstring) (st : state),
    cs <> [] ->
    forallb (cellOk o) cs = true ->
    inQuotes st = false -> field st = [] ->
    lineStart st && commentStart o (rowText dl cs ++ x) = false ->
    head x <> Some DQ ->
    exists st' : state,
      loop o (length (rowText dl cs ++ x)) st (rowText dl cs ++ x)
        = loop o (length x) st' x /\
      rows st' = rows st /\ inQuotes st' = false /\
      row (pushField o st') = row st ++ map (cellValue o) cs /\
      (lineStart st' = true -> rowText dl cs = [] /\ lineStart st = true).
Proof.
  induction cs as [|c cs IH]; intros x st Hne Hok Hq Hf Hc Hx; [congruence|].
  simpl in Hok. apply andb_true_iff in Hok as [Hc1 Hcs].
  destruct cs as [|c' cs'].
  - simpl rowText in *.
    exists (afterCell st c). split; [now apply loop_cell|].
    split; [reflexivity|]. split; [reflexivity|]. split.
    + simpl. now rewrite (cellOk_value c Hc1).
    + simpl. destruct (cellText c); [auto | discriminate].
  - change (rowText dl (c :: c' :: cs'))
      with (cellText c ++ dl :: rowText dl (c' :: cs')) in *.
    rewrite <- app_assoc in *.
    change ((dl :: rowText dl (c' :: cs')) ++ x)
      with (dl :: rowText dl (c' :: cs') ++ x) in *.
    rewrite (loop_cell c _ st Hc1 Hq Hf Hc)
      by (simpl; intros E; inversion E; contradiction).
    assert (Hc2 : lineStart (afterCell st c) && seq_eq [dl] (commentChar o) = false).
    { simpl. destruct (cellText c) eqn:Et; [|reflexivity].
      simpl in Hc. exact Hc. }
    rewrite loop_len_cons, (body_delimiter o (afterCell st c) dl _ Hc2 eq_refl)
      by (rewrite delimiter_test; apply N.eqb_refl).
    destruct (IH x (setLineStart false (pushField o (afterCell st c))))
      as (st' & H1 & H2 & H3 & H4 & H5);
      [discriminate | exact Hcs | reflexivity | reflexivity | reflexivity | exact Hx |].
    exists st'. split; [exact H1|]. split; [exact H2|]. split; [exact H3|]. split.
    + rewrite H4. simpl. rewrite (cellOk_value c Hc1), <- app_assoc. reflexivity.
    + intros E. destruct (H5 E) as [_ E']. discriminate.
Qed.

Lemma commentStart_app (a rest : jsstring) :
  commentStart o (a ++ LF :: rest) = commentStart o (a ++ [LF]).
Proof. now destruct a. Qed.

Lemma filter_keepsRow_one (r : list jsstring) :
  List.filter (keepsRow o) [r] =
  if blankRow r then [] else if commentRow o r then [] else [r].
Proof.
  simpl. unfold keepsRow. destruct (blankRow r); [reflexivity|].
  destruct (commentRow o r); reflexivity.
Qed.

Lemma loop_table (t : list (list cell)) :
  forall rs : list (list jsstring),
    Forall (rowOk o dl) t ->
    loop o (length (tableText dl t)) (startState rs) (tableText dl t) =
    Some (startState
            (rs ++ List.filter (keepsRow o) (map (map (cellValue o)) t))).
Proof.
  induction t as [|cs t IH]; intros rs Ht.
  - simpl. now rewrite app_nil_r.
  - inversion Ht as [|? ? (Hne & Hok & Hc) Ht']; subst.
    simpl tableText.
    assert (Hc0 : lineStart (startState rs)
                  && commentStart o (rowText dl cs ++ LF :: tableText dl t) = false)
      by (simpl lineStart; simpl andb; now rewrite commentStart_app).
    assert (Hx : head (LF :: tableText dl t) <> Some DQ) by discriminate.
    destruct (loop_row cs (LF :: tableText dl t) (startState rs)
                Hne Hok eq_refl eq_refl Hc0 Hx)
      as (st' & H1 & H2 & H3 & H4 & H5).
    rewrite H1, loop_len_cons.
    assert (Hc2 : lineStart st' && seq_eq [LF] (commentChar o) = false).
    { destruct (lineStart st') eqn:E; [|reflexivity].
      destruct (H5 eq_refl) as [E' _]. rewrite E' in Hc. exact Hc. }
    rewrite (body_newline o st' _ Hc2 H3)
      by (rewrite delimiter_test; apply ceq_false; congruence).
    assert (Hst : setLineStart true (pushRow o (pushField o st'))
                  = startState (rs ++ List.filter (keepsRow o)
                                        [map (cellValue o) cs])).
    { rewrite filter_keepsRow_one. unfold setLineStart, startState, pushRow.
      rewrite H4. simpl app. simpl in H2.
      destruct (blankRow (map (cellValue o) cs));
        [simpl; rewrite H2, H3, app_nil_r; reflexivity|].
      destruct (commentRow o (map (cellValue o) cs));
        simpl; rewrite H2, H3, ?app_nil_r; reflexivity. }
    rewrite Hst, IH by exact Ht'.
    do 2 f_equal. rewrite <- app_assoc. f_equal.
    simpl. destruct (keepsRow o (map (cellValue o) cs)); reflexivity.
Qed.

Lemma escapeQuotes_Forall (P : N -> Prop) (x : jsstring) :
  P DQ -> Forall P x -> Forall P (escapeQuotes x).
Proof.
  intros HP. induction 1 as [|a t Ha Ht IH]; simpl; [constructor|].
  destruct (ceq a DQ); repeat constructor; auto.
Qed.

Lemma cellText_noCR (c : cell) :
  cellOk o c = true -> Forall (fun a => a <> CR) (cellText c).
Proof.
  destruct c as [v | x]; simpl; intros H.
  - apply forallb_Forall_true in H. eapply Forall_impl; [exact H|].
    intros a Ha. apply plainChar_spec in Ha. apply ceq_false. tauto.
  - apply andb_true_iff in H as [H _]. apply forallb_Forall_true in H.
    constructor; [discriminate|]. apply Forall_app. split.
    + apply escapeQuotes_Forall; [discriminate|].
      eapply Forall_impl; [exact H|]. intros a Ha.
      apply negb_true_iff in Ha. now apply ceq_false.
    + repeat constructor. discriminate.
Qed.

Lemma rowText_noCR (cs : list cell) :
  forallb (cellOk o) cs = true -> Forall (fun a => a <> CR) (rowText dl cs).
Proof.
  induction cs as [|c cs IH]; intros H; [constructor|].
  simpl in H. apply andb_true_iff in H as [Hc Hcs].
  destruct cs as [|c' cs']; [now apply cellText_noCR|].
  change (rowText dl (c :: c' :: cs'))
    with (cellText c ++ dl :: rowText dl (c' :: cs')).
  apply Forall_app. split; [now apply cellText_noCR|].
  constructor; [exact dl_CR | now apply IH].
Qed.

Lemma tableText_noCR (t : list (list cell)) :
  Forall (rowOk o dl) t -> Forall (fun a => a <> CR) (tableText dl t).
Proof.
  induction 1 as [|cs t (_ & Hok & _) Ht IH]; simpl; [constructor|].
  apply Forall_app. split; [now apply rowText_noCR|].
  constructor; [discriminate | exact IH].
Qed.

Lemma loop_tableText (t : list (list cell)) :
  Forall (rowOk o dl) t ->
  head (tableText dl t) <> Some BOM ->
  loop o (length (prepare (tableText dl t))) initState (prepare (tableText dl t))
  = Some (startState (List.filter (keepsRow o) (map (map (cellValue o)) t))).
Proof.
  intros Ht Hb.
  assert (Hp : prepare (tableText dl t) = tableText dl t)
    by (apply prepare_id; [exact Hb | now apply tableText_noCR]).
  rewrite Hp. apply (loop_table t [] Ht).
Qed.

(** X6: a well-formed table is read back.  The delimiter is one
    character, other than the double quote, the newline and the carriage
    return.  A row of the table has at least one field; the text of the
    table has every row followed by a newline and the fields of a row
    separated by the delimiter; a field is written as it is (without
    delimiter, newline, carriage return, double quote or NUL) or between
    double quotes with its double quotes doubled (without carriage return,
    and without two double quotes in a row in the value).  The text does
    not start with a byte order mark, and the text of no row starts with
    the comment character: the state machine skips such a line up to the
    next newline, also when that newline is inside a quoted field, and
    the theorem says nothing of it.  Then [tokenize] gives the rows of the
    table that [pushRow] keeps, in order: a field written as it is gives
    its text, trimmed when trimming is on, and a quoted field gives its
    value as it is, with the delimiters, newlines, NUL characters and
    white space it holds.  The rows that [pushRow] drops are the rows of
    one field that is empty or blank, and the rows whose first value,
    trimmed, starts with the comment character, as after white space, or
    between double quotes. *)
Theorem tokenize_table (t : list (list cell)) :
  Forall (rowOk o dl) t ->
  head (tableText dl t) <> Some BOM ->
  tokenize o (tableText dl t)
  = Some (List.filter (keepsRow o) (map (map (cellValue o)) t)).
Proof.
  intros Ht Hb.
  rewrite (tokenize_rows o _ _ (loop_tableText t Ht Hb)).
  unfold finish, startState. reflexivity.
Qed.

End RoundTrip.

Lemma tokenize_table_witness :
  tokenize noOptions
    (tableText 44%N [[Plain (str " a "); Quoted (lit ", 'x'" ++ [LF; NUL])];
                     [Plain (str "")];
                     [Quoted (str "#c"); Plain (str "z")];
                     [Quoted (str "1"); Plain (str "")]])
  = Some [[str "a"; lit ", 'x'" ++ [LF; NUL]]; [str "1"; str ""]].
Proof.
  rewrite (tokenize_table noOptions 44%N).
  - reflexivity.
  - reflexivity.
  - discriminate.
  - discriminate.
  - discriminate.
  - repeat constructor; discriminate.
  - discriminate.
Defined.

(** ** The records of a well-formed table *)

Lemma filter_keep_all {A : Type} (f : A -> bool) (l : list A) :
  Forall (fun a => f a = true) l -> List.filter f l = l.
Proof.
  induction 1 as [|a l Ha _ IH]; simpl; [reflexivity|]. now rewrite Ha, IH.
Qed.

Lemma lookup_mapped {A B : Type} (f : A -> B) (l : list A) (i : nat) :
  map f l !! i = f <$> (l !! i).
Proof.
  revert i. induction l as [|a l IH]; intros [|i]; simpl; auto.
Qed.

Section TableRecords.

Variable o : options.
Variable dl : N.
Hypothesis delimiter_dl : delimiter o = [dl].
Hypothesis dl_DQ : dl <> DQ.
Hypothesis dl_LF : dl <> LF.
Hypothesis dl_CR : dl <> CR.

(** X9: the records of a well-formed table with a header row, on every
    engine.  The table is well formed: the delimiter is one character,
    other than the double quote, the newline and the carriage return,
    the rows and their fields are written as [rowOk] says, the text does
    not start with a byte order mark, and no row has a text that starts
    with the comment character.  When [hasHeader] is not false and
    no row of the table is left out (none is one blank field, none has a
    first field that starts, once trimmed, with the comment character),
    there is one record for every row after the first, in order, and the
    record of a row gives, under a header name that no later header
    repeats and that is not [__proto__], the value of the field of the row
    at the position of the name, or the empty string when the row has no
    field there. *)
Theorem parseCSV_table (e : engine) (hd : list cell) (t : list (list cell))
    (i j : nat) (cs : list cell) (c : cell) :
  hasHeader o = true ->
  Forall (rowOk o dl) (hd :: t) ->
  head (tableText dl (hd :: t)) <> Some BOM ->
  Forall (fun r => keepsRow o (map (cellValue o) r) = true) (hd :: t) ->
  t !! i = Some cs ->
  hd !! j = Some c ->
  cellValue o c ∉ map (cellValue o) (drop (S j) hd) ->
  cellValue o c <> str "__proto__" ->
  exists (recs : list (gmap jsstring jsstring)) (m : gmap jsstring jsstring),
    parseCSV e (tableText dl (hd :: t)) o = Some (Returns recs) /\
    length recs = length t /\
    recs !! i = Some m /\
    m !! cellValue o c = Some (default [] (map (cellValue o) cs !! j)).
Proof.
  intros Hh Ht Hb Hk Hi Hj Hlast Hp.
  exists (map (buildObject (map (cellValue o) hd)) (map (map (cellValue o)) t)),
    (buildObject (map (cellValue o) hd) (map (cellValue o) cs)).
  split; [|split; [|split]].
  - unfold parseCSV.
    rewrite (tokenize_rows o _ _
               (loop_tableText o dl delimiter_dl dl_DQ dl_LF dl_CR _ Ht Hb)).
    change (rows (finish o (startState ?r))) with r.
    rewrite filter_keep_all by (apply Forall_map; exact Hk).
    cbn [option_map]. now rewrite (buildRecords_header e o _ Hh).
  - now rewrite !length_map.
  - now rewrite !lookup_mapped, Hi.
  - unfold buildObject.
    apply (fillObject_lookup_last _ _ _ j 0).
    + now rewrite lookup_mapped, Hj.
    + now rewrite skipn_map.
    + exact Hp.
Qed.

End TableRecords.

Lemma parseCSV_table_witness :
  exists (recs : list (gmap jsstring jsstring)) (m : gmap jsstring jsstring),
    parseCSV engine64k
      (tableText 44%N [[Plain (str "id"); Plain (str "name")];
                       [Plain (str "1"); Quoted (str "x,y")];
                       [Plain (str "2")]]) noOptions = Some (Returns recs) /\
    length recs = 2 /\
    recs !! 1 = Some m /\
    m !! str "name" = Some (str "").
Proof.
  apply (parseCSV_table noOptions 44%N eq_refl ltac:(discriminate)
           ltac:(discriminate) ltac:(discriminate) engine64k
           [Plain (str "id"); Plain (str "name")]
           [[Plain (str "1"); Quoted (str "x,y")]; [Plain (str "2")]]
           1 1 [Plain (str "2")] (Plain (str "name"))).
  - reflexivity.
  - repeat constructor; discriminate.
  - discriminate.
  - repeat constructor.
  - reflexivity.
  - reflexivity.
  - simpl. apply not_elem_of_nil.
  - discriminate.
Defined.

(** ** The lines of a well-formed table *)

Section TableLines.

Variable dl : N.
Hypothesis dl_DQ : dl <> DQ.
Hypothesis dl_LF : dl <> LF.
Hypothesis dl_CR : dl <> CR.

Lemma splitLoop_plain (v x cur : jsstring) (inQ : bool) (lines : list jsstring) :
  lineCellOk (Plain v) = true ->
  splitLoop (v ++ x) cur inQ lines = splitLoop x (cur ++ v) inQ lines.
Proof.
  revert cur. induction v as [|a v IH]; intros cur H.
  - simpl. now rewrite app_nil_r.
  - cbn [lineCellOk forallb] in H. apply andb_true_iff in H as [Ha Hv].
    apply andb_true_iff in Ha as [Ha H3]. apply andb_true_iff in Ha as [H1 H2].
    apply negb_true_iff in H1, H2, H3.
    assert (a <> DQ) by (intros ->; vm_compute in H1; discriminate).
    assert (a <> LF) by (intros ->; vm_compute in H2; discriminate).
    assert (a <> CR) by (intros ->; vm_compute in H3; discriminate).
    change ((a :: v) ++ x) with (a :: v ++ x).
    rewrite splitLoop_plain_char, IH by assumption. now rewrite <- app_assoc.
Qed.

Lemma splitLoop_escaped (y rest : jsstring) (lines : list jsstring) :
  forall cur : jsstring,
    splitLoop (escapeQuotes y ++ DQ :: rest) cur true lines
    = splitLoop (DQ :: rest) (cur ++ y) true lines.
Proof.
  induction y as [|a y IH]; intros cur.
  - simpl. now rewrite app_nil_r.
  - simpl. destruct (ceq a DQ) eqn:E.
    + apply ceq_true in E. subst a.
      change ((DQ :: DQ :: escapeQuotes y) ++ DQ :: rest)
        with (DQ :: DQ :: escapeQuotes y ++ DQ :: rest).
      rewrite splitLoop_cons. change (ceq DQ DQ) with true. cbv iota.
      simpl andb. cbv iota. rewrite IH. now rewrite <- app_assoc.
    + change ((a :: escapeQuotes y) ++ DQ :: rest)
        with (a :: escapeQuotes y ++ DQ :: rest).
      rewrite splitLoop_cons, E, andb_false_r, IH. now rewrite <- app_assoc.
Qed.

Lemma splitLoop_close (rest cur : jsstring) (lines : list jsstring) :
  head rest <> Some DQ ->
  splitLoop (DQ :: rest) cur true lines = splitLoop rest (cur ++ [DQ]) false lines.
Proof.
  intros H. rewrite splitLoop_cons. change (ceq DQ DQ) with true. cbv iota.
  destruct rest as [|c2 t2]; [reflexivity|].
  destruct (ceq c2 DQ) eqn:E; [|reflexivity].
  apply ceq_true in E. subst. now elim H.
Qed.

Lemma splitLoop_open (t cur : jsstring) (lines : list jsstring) :
  splitLoop (DQ :: t) cur false lines = splitLoop t (cur ++ [DQ]) true lines.
Proof. rewrite splitLoop_cons. now destruct t. Qed.

Lemma splitLoop_cell (c : cell) (x cur : jsstring) (lines : list jsstring) :
  lineCellOk c = true ->
  head x <> Some DQ ->
  splitLoop (cellText c ++ x) cur false lines
  = splitLoop x (cur ++ cellBuffer c) false lines.
Proof.
  intros Hok Hx. destruct c as [v | y]; cbn [cellText cellBuffer].
  - now apply splitLoop_plain.
  - change ((DQ :: escapeQuotes y ++ [DQ]) ++ x)
      with (DQ :: (escapeQuotes y ++ [DQ]) ++ x).
    rewrite <- app_assoc. change ([DQ] ++ x) with (DQ :: x).
    rewrite splitLoop_open, splitLoop_escaped, (splitLoop_close _ _ _ Hx).
    f_equal. rewrite <- !app_assoc. reflexivity.
Qed.

Lemma splitLoop_row (cs : list cell) :
  forall (x cur : jsstring) (lines : list jsstring),
    forallb lineCellOk cs = true ->
    head x <> Some DQ ->
    splitLoop (rowText dl cs ++ x) cur false lines
    = splitLoop x (cur ++ rowLine dl cs) false lines.
Proof.
  induction cs as [|c cs IH]; intros x cur lines Hok Hx.
  - simpl. now rewrite app_nil_r.
  - cbn [forallb] in Hok. apply andb_true_iff in Hok as [Hc Hcs].
    destruct cs as [|c' cs']; [now apply splitLoop_cell|].
    change (rowText dl (c :: c' :: cs'))
      with (cellText c ++ dl :: rowText dl (c' :: cs')).
    change (rowLine dl (c :: c' :: cs'))
      with (cellBuffer c ++ dl :: rowLine dl (c' :: cs')).
    rewrite <- app_assoc.
    change ((dl :: rowText dl (c' :: cs')) ++ x)
      with (dl :: rowText dl (c' :: cs') ++ x).
    rewrite (splitLoop_cell c _ _ _ Hc)
      by (simpl; intros E; inversion E; contradiction).
    rewrite splitLoop_plain_char by assumption.
    rewrite (IH x _ lines Hcs Hx). f_equal. rewrite <- !app_assoc. reflexivity.
Qed.

Lemma splitLoop_table (t : list (list cell)) :
  forall lines : list jsstring,
    Forall (fun cs => forallb lineCellOk cs = true) t ->
    splitLoop (tableText dl t) [] false lines
    = lines ++ List.filter nonBlank (map (rowLine dl) t).
Proof.
  induction t as [|cs t IH]; intros lines Ht.
  - simpl. unfold pushLine. simpl. now rewrite app_nil_r.
  - inversion Ht as [|? ? Hcs Ht']; subst. simpl tableText.
    rewrite (splitLoop_row cs _ _ _ Hcs) by discriminate.
    rewrite splitLoop_LF, (IH _ Ht'). simpl app.
    unfold pushLine. simpl. unfold nonBlank at 2.
    destruct (seq_eq (trim (rowLine dl cs)) []); simpl;
      [reflexivity | now rewrite <- app_assoc].
Qed.

(** X8: [splitCSVLines] cuts the text of a table into one line for every
    row that is not blank, in order, also when quoted fields hold
    newlines, carriage returns or double quotes.  The rows of the table
    end with a newline; the fields of a row are separated by one
    character, other than the double quote, the newline and the carriage
    return; a field is written as it is, without double quote, newline and
    carriage return, or between double quotes with its double quotes
    doubled, and then has any value.  The line of a row is the text of
    the row with every doubled double quote of a quoted field as one
    double quote. *)
Theorem splitCSVLines_table (t : list (list cell)) :
  Forall (fun cs => forallb lineCellOk cs = true) t ->
  splitCSVLines (tableText dl t) = List.filter nonBlank (map (rowLine dl) t).
Proof.
  intros Ht. unfold splitCSVLines. now rewrite (splitLoop_table t [] Ht).
Qed.

End TableLines.

Lemma splitCSVLines_table_witness :
  splitCSVLines
    (tableText 44%N
       [[Plain (str "a"); Quoted (lit "x'" ++ [CR; LF] ++ str "y" ++ [CR])];
        [Plain (str " ")];
        [Plain (str "b")]])
  = [str "a," ++ [DQ] ++ lit "x'" ++ [CR; LF] ++ str "y" ++ [CR; DQ]; str "b"].
Proof.
  rewrite (splitCSVLines_table 44%N).
  - reflexivity.
  - discriminate.
  - discriminate.
  - discriminate.
  - repeat constructor.
Defined.

(** ** A newline at the end of the input *)

Lemma skipToNewline_snoc (s : jsstring) :
  match skipToNewline s with
  | ([], _) => fst (skipToNewline (s ++ [LF])) = [LF]
  | (r, _) => fst (skipToNewline (s ++ [LF])) = r ++ [LF]
  end.
Proof.
  induction s as [|c t IH]; [reflexivity|].
  simpl. destruct (ceq c LF); [reflexivity|].
  destruct (skipToNewline t) as [r k], (skipToNewline (t ++ [LF])) as [r' k'].
  simpl in *. destruct r; exact IH.
Qed.

(** One iteration with a newline added at the end of the input: the same
    state, and the same input left with the newline after it, unless a
    comment line ran to the end of the input and took the newline. *)
Lemma body_snoc (o : options) (st st1 : state) (c : N) (t r : jsstring) (k : nat) :
  body o st c t = (st1, r, k) ->
  (exists k', body o st c (t ++ [LF]) = (st1, r ++ [LF], k')) \/
  (r = [] /\ exists k', body o st c (t ++ [LF]) = (st1, [], k')).
Proof.
  unfold body.
  destruct (lineStart st && seq_eq [c] (commentChar o)).
  { pose proof (skipToNewline_snoc (c :: t)) as Hs.
    change ((c :: t) ++ [LF]) with (c :: t ++ [LF]) in Hs.
    destruct (skipToNewline (c :: t)) as [r0 k0],
             (skipToNewline (c :: t ++ [LF])) as [r1 k1].
    simpl in Hs. intros E; inversion E; subst; clear E.
    destruct r0 as [|a r0]; subst r1.
    - right. split; [reflexivity|]. eauto.
    - left. eauto. }
  destruct (negb (inQuotes st) && seq_eq [c] (delimiter o));
    [intros E; inversion E; subst; eauto|].
  destruct (negb (inQuotes st) && ceq c LF);
    [intros E; inversion E; subst; eauto|].
  destruct (negb (inQuotes st) && ceq c NUL);
    [intros E; inversion E; subst; eauto|].
  destruct (ceq c DQ).
  - destruct (negb (inQuotes st)).
    + destruct (seq_eq (field st) []); intros E; inversion E; subst; eauto.
    + destruct t as [|c2 t2]; simpl.
      * intros E; inversion E; subst. left. eauto.
      * destruct (ceq c2 DQ); intros E; inversion E; subst; eauto.
  - destruct (ceq c LF && inQuotes st); intros E; inversion E; subst; eauto.
Qed.

Lemma loop_snoc (o : options) (n : nat) :
  forall (d : jsstring) (st : state),
    length d <= n ->
    exists st_d : state,
      loop o (length d) st d = Some st_d /\
      (loop o (length (d ++ [LF])) st (d ++ [LF]) = loop o 1 st_d [LF] \/
       loop o (length (d ++ [LF])) st (d ++ [LF]) = Some st_d).
Proof.
  induction n as [|n IH]; intros d st Hlen.
  { destruct d; simpl in Hlen; [|lia]. exists st. split; [reflexivity|now left]. }
  destruct d as [|c t]; [exists st; split; [reflexivity | now left]|].
  simpl in Hlen. change ((c :: t) ++ [LF]) with (c :: t ++ [LF]).
  rewrite !loop_len_cons.
  destruct (body o st c t) as [[st1 r] k] eqn:Eb.
  pose proof (body_progress o _ _ _ _ _ _ Eb) as [Hr _].
  destruct (IH r st1 ltac:(lia)) as (st_d & H1 & H2).
  exists st_d. split; [exact H1|].
  destruct (body_snoc o st st1 c t r k Eb) as [[k' E] | [-> [k' E]]]; rewrite E.
  - exact H2.
  - right. simpl in H1. simpl. exact H1.
Qed.

Lemma finish_after_newline (o : options) (st : state) :
  inQuotes st = false ->
  finish o (setLineStart true (pushRow o (pushField o st)))
  = setLineStart true (pushRow o (pushField o st)) /\
  rows (pushRow o (pushField o st)) = rows (finish o st).
Proof.
  intros Hq.
  destruct (pushRow_fields o (pushField o st)) as (F1 & F2 & F3).
  split.
  - unfold finish. simpl. now rewrite F1, F2.
  - unfold finish. destruct (field st) as [|a f] eqn:Ef; [|reflexivity].
    destruct (row st) as [|g r] eqn:Er; [|reflexivity].
    simpl. unfold pushRow, pushField. rewrite Er, Ef, Hq. simpl.
    unfold finalizeField. simpl. destruct (trimEnabled o); reflexivity.
Qed.

Lemma rows_after_newline (o : options) (st st' : state) :
  delimiter o <> [LF] ->
  inQuotes st = false ->
  loop o 1 st [LF] = Some st' ->
  rows (finish o st') = rows (finish o st).
Proof.
  intros Hd Hq. rewrite loop_cons.
  destruct (lineStart st && seq_eq [LF] (commentChar o)) eqn:Ec.
  - apply andb_true_iff in Ec as [Es Ec].
    rewrite (body_comment o st LF [] Es Ec). simpl.
    intros E; inversion E; subst. reflexivity.
  - assert (Ed : seq_eq [LF] (delimiter o) = false).
    { destruct (seq_eq [LF] (delimiter o)) eqn:Ed; [|reflexivity].
      apply seq_eq_true in Ed. congruence. }
    rewrite (body_newline o st [] Ec Hq Ed). simpl.
    intros E; inversion E; subst.
    destruct (finish_after_newline o st Hq) as [-> <-]. reflexivity.
Qed.

Lemma replaceCRLF_snoc (n : nat) :
  forall d : jsstring,
    length d <= n ->
    replaceCRLF (d ++ [LF]) = replaceCRLF d ++ [LF] \/
    exists e, replaceCRLF (d ++ [LF]) = e ++ [LF] /\ replaceCRLF d = e ++ [CR].
Proof.
  induction n as [|n IH]; intros d Hlen.
  { destruct d; simpl in Hlen; [now left | lia]. }
  destruct d as [|a [|b u]]; [now left| |].
  - simpl. destruct (ceq a CR) eqn:E.
    + apply ceq_true in E. subst. right. exists []. split; reflexivity.
    + left. reflexivity.
  - change ((a :: b :: u) ++ [LF]) with (a :: b :: (u ++ [LF])).
    rewrite !replaceCRLF_eq. simpl in Hlen.
    destruct (ceq a CR && ceq b LF).
    + destruct (IH u ltac:(lia)) as [H | (e & H1 & H2)].
      * left. now rewrite H.
      * right. exists (LF :: e). now rewrite H1, H2.
    + destruct (IH (b :: u) ltac:(simpl; lia)) as [H | (e & H1 & H2)].
      * left. change (b :: u ++ [LF]) with ((b :: u) ++ [LF]). now rewrite H.
      * right. exists (a :: e).
        change (b :: u ++ [LF]) with ((b :: u) ++ [LF]). now rewrite H1, H2.
Qed.

Lemma prepare_snoc (data : jsstring) :
  prepare (data ++ [LF]) = prepare data ++ [LF] \/
  prepare (data ++ [LF]) = prepare data.
Proof.
  unfold prepare, normalize.
  assert (E : stripBOM (data ++ [LF]) = stripBOM data ++ [LF]).
  { destruct data as [|c t]; [reflexivity|]. simpl.
    destruct (ceq c BOM); reflexivity. }
  rewrite E.
  destruct (replaceCRLF_snoc _ (stripBOM data) (le_n _)) as [H | (e & H1 & H2)].
  - left. rewrite H. unfold replaceCR. now rewrite map_app.
  - right. rewrite H1, H2. unfold replaceCR. now rewrite !map_app.
Qed.

(** X7: a newline added at the end of an input that does not end inside
    an open quoted field changes nothing, when the newline is not the
    delimiter: the rows and the records are the same. *)
Theorem tokenize_trailing_newline (e : engine) (o : options) (data : jsstring)
    (st : state) :
  delimiter o <> [LF] ->
  loop o (length (prepare data)) initState (prepare data) = Some st ->
  inQuotes st = false ->
  tokenize o (data ++ [LF]) = tokenize o data /\
  parseCSV e (data ++ [LF]) o = parseCSV e data o.
Proof.
  intros Hd Hloop Hq.
  assert (H : tokenize o (data ++ [LF]) = tokenize o data).
  { destruct (prepare_snoc data) as [Hp | Hp].
    - destruct (loop_snoc o _ (prepare data) initState (le_n _))
        as (st_d & H1 & H2).
      rewrite Hloop in H1. injection H1 as <-.
      rewrite (tokenize_rows o data st Hloop).
      destruct (loop_terminates o (length (prepare (data ++ [LF]))) initState
                  (prepare (data ++ [LF])) (le_n _)) as (st' & _ & Hl' & _).
      rewrite (tokenize_rows o _ st' Hl'). rewrite Hp in Hl'.
      destruct H2 as [H2 | H2]; rewrite H2 in Hl'.
      + now rewrite (rows_after_newline o st st' Hd Hq Hl').
      + now injection Hl' as <-.
    - unfold tokenize. now rewrite Hp. }
  split; [exact H|]. unfold parseCSV. now rewrite H.
Qed.

Lemma tokenize_trailing_newline_witness :
  tokenize noOptions (lit "a,'b" ++ [LF] ++ lit "c'" ++ [LF])
  = tokenize noOptions (lit "a,'b" ++ [LF] ++ lit "c'").
Proof.
  destruct (tokenize_trailing_newline engine64k noOptions
              (lit "a,'b" ++ [LF] ++ lit "c'")
              (mkState [] [str "a"] (lit "'b" ++ [LF] ++ lit "c'") false false))
    as [H _].
  - discriminate.
  - vm_compute. reflexivity.
  - reflexivity.
  - exact H.
Defined.

(** ** A delimiter of more than one character *)

Lemma long_delimiter_test (o : options) (c : N) :
  1 < length (delimiter o) -> seq_eq [c] (delimiter o) = false.
Proof.
  intros H. destruct (seq_eq [c] (delimiter o)) eqn:E; [|reflexivity].
  apply seq_eq_true in E. rewrite <- E in H. simpl in H. lia.
Qed.

Lemma pushRow_unsplit (o : options) (st : state) :
  unsplit st -> unsplit (pushRow o (pushField o st)).
Proof.
  intros [Hr Hrs]. unfold pushRow.
  destruct (blankRow (row (pushField o st)));
    [|destruct (commentRow o (row (pushField o st)))];
    split; simpl; try reflexivity; try exact Hrs.
  apply Forall_app. split; [exact Hrs|]. rewrite Hr. now repeat constructor.
Qed.

Lemma body_unsplit (o : options) (st st' : state) (c : N) (t r : jsstring)
    (k : nat) :
  1 < length (delimiter o) ->
  unsplit st ->
  body o st c t = (st', r, k) ->
  unsplit st'.
Proof.
  intros Hd H. unfold body.
  rewrite (long_delimiter_test o c Hd), andb_false_r.
  destruct (skipToNewline (c :: t)) as [r0 k0].
  destruct_tests; intros E; inversion E; subst; clear E;
    try exact H; try (destruct (pushRow_unsplit o st H) as [H1 H2]; split; assumption).
Qed.

Lemma loop_unsplit (o : options) (fuel : nat) :
  1 < length (delimiter o) ->
  forall (st st' : state) (rest : jsstring),
    unsplit st ->
    loop o fuel st rest = Some st' ->
    unsplit st'.
Proof.
  intros Hd. induction fuel as [|fuel IH]; intros st st' rest H E.
  - destruct rest; simpl in E; [|discriminate]. now inversion E; subst.
  - destruct rest as [|c t]; simpl in E; [now inversion E; subst|].
    destruct (body o st c t) as [[st1 r] k] eqn:Eb.
    eapply IH; [|exact E]. eapply body_unsplit; eauto.
Qed.

(** X10: a delimiter of more than one character never splits a row.  The
    loop compares the delimiter with one character of the input at a time,
    so with such a delimiter every row that [tokenize] returns has exactly
    one field. *)
Theorem long_delimiter_one_field (o : options) (data : jsstring) :
  1 < length (delimiter o) ->
  exists rs : list (list jsstring),
    tokenize o data = Some rs /\
    Forall (fun r : list jsstring => length r = 1) rs.
Proof.
  intros Hd.
  destruct (loop_terminates o (length (prepare data)) initState (prepare data))
    as (st & n & Hloop & _); [lia|].
  exists (rows (finish o st)). split; [exact (tokenize_rows o data st Hloop)|].
  assert (H : unsplit st).
  { apply (loop_unsplit o (length (prepare data)) Hd initState st (prepare data)); [|exact Hloop].
    split; [reflexivity | apply List.Forall_nil]. }
  unfold finish.
  destruct ((0 <? length (field st)) || (0 <? length (row st)));
    [apply (pushRow_unsplit o st H) | apply H].
Qed.

Lemma long_delimiter_one_field_witness :
  exists rs : list (list jsstring),
    tokenize (mkOptions (Some (str "::")) None None None)
             (str "a::b" ++ [LF] ++ str "c") = Some rs /\
    Forall (fun r : list jsstring => length r = 1) rs.
Proof.
  apply (long_delimiter_one_field
           (mkOptions (Some (str "::")) None None None)
           (str "a::b" ++ [LF] ++ str "c")).
  simpl. lia.
Defined.

(** ** What [parseCSV] does on every input *)

(** X11: [parseCSV] returns or throws, and when.  For every engine, input
    and options, the main loop ends within one iteration per character of
    the input, with the same state under every larger bound, and it reads
    the input at most twice per character of the input (the reads made by
    the removal of the byte order mark, by the two replacements and by the
    methods of the fields are not counted).  The rows being [rs],
    [parseCSV] then returns one record for every row, but for the header
    row when [hasHeader] is not false; it throws a [RangeError] exactly
    when [hasHeader] is false and there are more rows than the engine
    accepts arguments in one call. *)
Theorem parseCSV_outcome (e : engine) (data : jsstring) (o : options) :
  exists (rs : list (list jsstring)) (st : state) (n : nat),
    loop o (length (prepare data)) initState (prepare data) = Some st /\
    (forall extra : nat,
        loop o (length (prepare data) + extra) initState (prepare data) = Some st) /\
    inspections o data = Some n /\
    n <= 2 * length data /\
    tokenize o data = Some rs /\
    if hasHeader o || accepts e (length rs) then
      exists recs : list (gmap jsstring jsstring),
        parseCSV e data o = Some (Returns recs) /\
        length recs = length rs - startIdx o
    else parseCSV e data o = Some RangeError.
Proof.
  destruct (loop_terminates o (length (prepare data)) initState (prepare data))
    as (st & n & H1 & H2 & H3); [lia|].
  pose proof (tokenize_rows o data st H1) as Htok.
  exists (rows (finish o st)), st, n.
  split; [exact H1|].
  split; [intros extra; rewrite <- H1; apply loop_fuel; lia|].
  split; [exact H2|].
  split; [pose proof (prepare_length data); lia|].
  split; [exact Htok|].
  unfold parseCSV. rewrite Htok. cbn [option_map].
  remember (rows (finish o st)) as rs eqn:Ers. clear Ers.
  unfold startIdx. destruct (hasHeader o) eqn:Hh; cbn [orb].
  - rewrite (buildRecords_header e o rs Hh).
    eexists. split; [reflexivity|]. rewrite length_map, length_drop. reflexivity.
  - destruct (accepts e (length rs)) eqn:Ha.
    + rewrite (buildRecords_generic e o rs Hh Ha).
      eexists. split; [reflexivity|]. rewrite length_map. lia.
    + now rewrite (buildRecords_RangeError e o rs Hh Ha).
Qed.
